(** * Relationship-driven query/update engine of [app.py]

    A shallow embedding of the engine of [src/app.py]: [serialize],
    [map_fields_to_columns], [construct_query], [process_message],
    [update_database], [map_corrections_using_gpt] and the [message]
    handler, followed by the properties of the specification that are
    settled against it.

    Modelling conventions.
    - A Python [dict] (insertion ordered) is an association list whose
      lookup returns the first binding of a key and whose assignment
      overwrites in place or appends at the end.
    - Python exceptions are values of [exn]; a function that may raise
      returns a [res]; functions that talk to the database session or to
      the correction service run in the monad [M], which threads the
      chronological list of [event]s performed on the outside world.
    - The outside world (database engine, correction service) is a
      deterministic oracle [World] that answers from the history so far. *)

From Stdlib Require Import String Ascii List ZArith Bool.
From Stdlib Require Import DecimalString DecimalNat.
Import ListNotations.
Open Scope string_scope.
Set Warnings "-register-all".

(** ** Python dictionaries *)

Module Dict.

Definition t (V : Type) : Type := list (string * V).

Fixpoint get {V} (k : string) (d : t V) : option V :=
  match d with
  | [] => None
  | (k', v) :: d' => if String.eqb k k' then Some v else get k d'
  end.

Definition mem {V} (k : string) (d : t V) : bool :=
  match get k d with Some _ => true | None => false end.

(** [d[k] = v]: an existing key keeps its position, a new key goes last. *)
Fixpoint set {V} (k : string) (v : V) (d : t V) : t V :=
  match d with
  | [] => [(k, v)]
  | (k', v') :: d' =>
      if String.eqb k k' then (k', v) :: d' else (k', v') :: set k v d'
  end.

Definition keys {V} (d : t V) : list string := map fst d.

Definition is_empty {V} (d : t V) : bool :=
  match d with [] => true | _ :: _ => false end.

(** [{**a, **b}] *)
Definition merge {V} (a b : t V) : t V :=
  fold_left (fun acc kv => set (fst kv) (snd kv) acc) b a.

End Dict.

(** ** Strings *)

(** [s.split(sep)] for a one-character separator. *)
Fixpoint split (sep : ascii) (s : string) : list string :=
  match s with
  | EmptyString => [EmptyString]
  | String c r =>
      if Ascii.eqb c sep then EmptyString :: split sep r
      else match split sep r with
           | h :: t => String c h :: t
           | [] => [String c EmptyString]
           end
  end.

Definition dot : ascii := "."%char.

(** [s.split('.')[-1]] *)
Definition last_component (s : string) : string :=
  last (split dot s) EmptyString.

(** [str(n)] for a non-negative integer. *)
Definition str_of_nat (n : nat) : string :=
  NilEmpty.string_of_uint (Nat.to_uint n).

Definition dquote : string := String (ascii_of_nat 34) EmptyString.

(** ** Exceptions and results *)

Inductive exn : Type :=
| KeyError (key : string)
| ValueError
| UnboundLocalError (name : string)
| RecursionError
| SQLAlchemyError
| NoSuchColumnError (key : string).

(** [except SQLAlchemyError]: [NoSuchColumnError] derives from both
    [KeyError] and [SQLAlchemyError], so the handler catches it. *)
Definition is_sqlalchemy_error (e : exn) : bool :=
  match e with
  | SQLAlchemyError | NoSuchColumnError _ => true
  | _ => false
  end.

Inductive res (A : Type) : Type :=
| Ret (a : A)
| Raise (e : exn).
Arguments Ret {A} a.
Arguments Raise {A} e.

Definition rbind {A B} (r : res A) (k : A -> res B) : res B :=
  match r with
  | Ret a => k a
  | Raise e => Raise e
  end.

Declare Scope res_scope.
Delimit Scope res_scope with res.
Notation "x <- e ;; k" := (rbind e (fun x => k))
  (at level 61, e at next level, right associativity) : res_scope.
Notation "' p <- e ;; k" := (rbind e (fun x => match x with p => k end))
  (at level 61, p pattern, e at next level, right associativity) : res_scope.

(** ** Relationship schema *)

(** A column entry of the configuration: a JSON object that may carry the
    keys [alias], [ref] and [fields].  A Scalar Field Descriptor has only
    [alias]; a Link Descriptor has [ref] and [fields].  Every object of
    [fields] is taken to carry its [alias]. *)
Record descriptor : Type := Descriptor {
  d_alias : option string;
  d_ref : option string;
  d_fields : option (Dict.t string)
}.

Definition scalar (a : string) : descriptor :=
  Descriptor (Some a) None None.

Definition link (r : string) (fs : Dict.t string) : descriptor :=
  Descriptor None (Some r) (Some fs).

Definition table_schema : Type := Dict.t descriptor.
Definition relationship_schema : Type := Dict.t table_schema.


(** [a, b, c = s.split('.')] *)
Definition split3 (s : string) : res (string * string * string) :=
  match split dot s with
  | [a; b; c] => Ret (a, b, c)
  | _ => Raise ValueError
  end.

(** [a, b = s.split('.')] *)
Definition split2 (s : string) : res (string * string) :=
  match split dot s with
  | [a; b] => Ret (a, b)
  | _ => Raise ValueError
  end.

Definition getitem {V} (k : string) (d : Dict.t V) : res V :=
  match Dict.get k d with
  | Some v => Ret v
  | None => Raise (KeyError k)
  end.

Definition require {V} (key : string) (o : option V) : res V :=
  match o with
  | Some v => Ret v
  | None => Raise (KeyError key)
  end.

(** ** Values *)

(** The three [datetime] classes that [serialize] recognises. *)
Inductive temporal : Type :=
| PyDatetime (year month day hour minute second microsecond : Z)
             (utcoffset : option Z)
| PyDate (year month day : Z)
| PyTime (hour minute second microsecond : Z) (utcoffset : option Z).

(** [decimal.Decimal] as sign, coefficient and exponent. *)
Record Decimal : Type := MkDecimal {
  dec_negative : bool;
  dec_coefficient : Z;
  dec_exponent : Z
}.

(** A finite binary floating-point number [fl_mantissa * 2 ^ fl_exponent]. *)
Record pyfloat : Type := MkFloat {
  fl_mantissa : Z;
  fl_exponent : Z
}.

(** Values found in result rows, in records and in decoded JSON. *)
Inductive value : Type :=
| VNone
| VBool (b : bool)
| VInt (n : Z)
| VFloat (f : pyfloat)
| VStr (s : string)
| VTemporal (t : temporal)
| VDecimal (d : Decimal)
| VList (l : list value)
| VDict (d : list (string * value)).

(** A result row ([RowMapping]) and a materialized record. *)
Definition row : Type := Dict.t value.
Definition pyrecord : Type := Dict.t value.

(** Truth value of [fetchone()]'s result: [None] and an empty mapping are
    false. *)
Definition row_is_true (r : option row) : bool :=
  match r with
  | Some (_ :: _) => true
  | _ => false
  end.

(** [result.get(column)] *)
Definition row_get (column : string) (r : row) : value :=
  match Dict.get column r with
  | Some v => v
  | None => VNone
  end.

Definition is_None (v : value) : bool :=
  match v with VNone => true | _ => false end.

(** ** The outside world *)

Inductive event : Type :=
| EExecute (sql : string) (params : Dict.t value)
| ECommit
| ERollback
| EClose
| EPost (current : pyrecord) (user_message : option string).

Definition history : Type := list event.

Inductive exec_reply : Type :=
| ExecError
| ExecRow (r : option row).

Record oracle_reply : Type := OracleReply {
  status_code : Z;
  content : string
}.

(** The database engine and the correction service, answering from the
    history of the session so far.  [session.rollback()] and
    [session.close()] are taken not to raise. *)
Record World : Type := MkWorld {
  db_execute : history -> string -> Dict.t value -> exec_reply;
  db_commit : history -> bool;
  oracle_post : history -> pyrecord -> option string -> oracle_reply
}.

(** ** The session monad *)

Definition M (A : Type) : Type := history -> res A * history.

Definition mret {A} (a : A) : M A := fun h => (Ret a, h).

Definition mraise {A} (e : exn) : M A := fun h => (Raise e, h).

Definition mbind {A B} (m : M A) (k : A -> M B) : M B :=
  fun h =>
    match m h with
    | (Ret a, h') => k a h'
    | (Raise e, h') => (Raise e, h')
    end.

Definition lift {A} (r : res A) : M A := fun h => (r, h).

(** [try: body except SQLAlchemyError: handler] *)
Definition try_except {A} (body : M A) (handler : M A) : M A :=
  fun h =>
    match body h with
    | (Ret a, h') => (Ret a, h')
    | (Raise e, h') =>
        if is_sqlalchemy_error e then handler h' else (Raise e, h')
    end.

Declare Scope session_scope.
Delimit Scope session_scope with session.
Notation "x <- e ;; k" := (mbind e (fun x => k))
  (at level 61, e at next level, right associativity) : session_scope.
Notation "' p <- e ;; k" := (mbind e (fun x => match x with p => k end))
  (at level 61, p pattern, e at next level, right associativity)
  : session_scope.
Notation "e ;;; k" := (mbind e (fun _ => k))
  (at level 61, right associativity) : session_scope.

Definition statements (h : history) : list string :=
  flat_map (fun e => match e with EExecute sql _ => [sql] | _ => [] end) h.

(** ** The engine *)

Section Engine.

(** Library functions the program calls: [isoformat] of the [datetime]
    classes, [float()] of a [Decimal], [json.loads] ([None] stands for
    [JSONDecodeError]), and the response formatter of the handler. *)
Variable isoformat : temporal -> string.
Variable float_of_decimal : Decimal -> pyfloat.
Variable json_loads : string -> option value.
Variable generate_response : pyrecord -> string.

(** [config["relationships"]], loaded once at start-up. *)
Variable RELATIONSHIPS : relationship_schema.

Variable w : World.

(** Depth at which the interpreter gives up a recursion. *)
Variable recursion_limit : nat.

Definition serialize (obj : value) : value :=
  match obj with
  | VTemporal t => VStr (isoformat t)
  | VDecimal d => VFloat (float_of_decimal d)
  | _ => obj
  end.

(** [if 'alias' in columns and columns['alias'] in record:
      mapped_columns[table][columns['alias']] = record[columns['alias']]]
    on the fresh bucket. *)
Definition map_direct (record : pyrecord) (columns : descriptor)
    : Dict.t value :=
  match d_alias columns with
  | Some alias =>
      match Dict.get alias record with
      | Some v => Dict.set alias v []
      | None => []
      end
  | None => []
  end.

(** [if alias in record: mapped_columns[table][field] = record[alias]] *)
Definition map_field (record : pyrecord) (bucket : Dict.t value)
    (f : string * string) : Dict.t value :=
  match Dict.get (snd f) record with
  | Some v => Dict.set (fst f) v bucket
  | None => bucket
  end.

(** The bucket [mapped_columns[table]] that one iteration of the loop of
    [map_fields_to_columns] fills for the entry [columns]. *)
Definition map_entry (record : pyrecord) (columns : descriptor)
    : Dict.t value :=
  match d_fields columns with
  | Some fields => fold_left (map_field record) fields (map_direct record columns)
  | None => map_direct record columns
  end.

Definition map_fields_to_columns (record : pyrecord)
    (relationships : table_schema) : Dict.t (Dict.t value) :=
  fold_left
    (fun mapped_columns '(table, columns) =>
       Dict.set table (map_entry record columns) mapped_columns)
    relationships [].

Definition ref_alias_name (ref_table : string) (alias_counter : nat) : string :=
  ref_table ++ "_alias_" ++ str_of_nat alias_counter.

Definition ref_column_text (ref_alias : string) (f : string * string) : string :=
  ref_alias ++ "." ++ fst f ++ " AS " ++ dquote ++ snd f ++ dquote.

Definition direct_column_text (schema table_name column alias : string) : string :=
  schema ++ "." ++ table_name ++ "." ++ column
         ++ " AS " ++ dquote ++ alias ++ dquote.

Definition join_clause_text
    (ref_schema ref_table ref_alias schema table_name column ref_column : string)
    : string :=
  "LEFT JOIN " ++ ref_schema ++ "." ++ ref_table ++ " AS " ++ ref_alias
    ++ " ON " ++ schema ++ "." ++ table_name ++ "." ++ column
    ++ " = " ++ ref_alias ++ "." ++ ref_column.

(** First loop of [construct_query]: the SELECT list. *)
Fixpoint select_loop (schema table_name : string)
    (relationships : table_schema) (alias_counter : nat)
    (columns : list string) : res (list string) :=
  match relationships with
  | [] => Ret columns
  | (column, ref_table_info) :: rest =>
      match d_ref ref_table_info with
      | Some ref =>
          rbind (split3 ref) (fun parts =>
          let '(_, ref_table, _) := parts in
          let ref_alias := ref_alias_name ref_table alias_counter in
          rbind (require "fields" (d_fields ref_table_info)) (fun fields =>
          let ref_columns := map (ref_column_text ref_alias) fields in
          select_loop schema table_name rest (S alias_counter)
                      (columns ++ ref_columns)))
      | None =>
          rbind (require "alias" (d_alias ref_table_info)) (fun alias =>
          select_loop schema table_name rest alias_counter
            (columns ++ [direct_column_text schema table_name column alias]))
      end
  end.

(** Second loop of [construct_query]: the JOIN clauses. *)
Fixpoint join_loop (schema table_name : string)
    (relationships : table_schema) (alias_counter : nat)
    (join_clauses : list string) : res (list string) :=
  match relationships with
  | [] => Ret join_clauses
  | (column, ref_table_info) :: rest =>
      match d_ref ref_table_info with
      | Some ref =>
          rbind (split3 ref) (fun parts =>
          let '(ref_schema, ref_table, ref_column) := parts in
          let ref_alias := ref_alias_name ref_table alias_counter in
          join_loop schema table_name rest (S alias_counter)
            (join_clauses ++
               [join_clause_text ref_schema ref_table ref_alias
                                 schema table_name column ref_column]))
      | None => join_loop schema table_name rest alias_counter join_clauses
      end
  end.

Definition where_clause (schema table_name column_name : string) : string :=
  " WHERE " ++ schema ++ "." ++ table_name ++ "." ++ column_name
            ++ " = :id_value".

(** [construct_query]; the result is the text handed to [text()]. *)
Definition construct_query (table id_name : string) (id_value : value)
    : res string :=
  rbind (split2 table) (fun st =>
  let '(schema, table_name) := st in
  rbind (getitem table RELATIONSHIPS) (fun relationships =>
  rbind (select_loop schema table_name relationships 1 []) (fun columns =>
  let query := "SELECT " ++ String.concat ", " columns
                 ++ " FROM " ++ schema ++ "." ++ table_name in
  rbind (join_loop schema table_name relationships 1 []) (fun join_clauses =>
  let query :=
    match join_clauses with
    | [] => query
    | _ :: _ => query ++ " " ++ String.concat " " join_clauses
    end in
  let column_name := last_component id_name in
  Ret (query ++ where_clause schema table_name column_name))))).

(** *** Session primitives *)

Definition log (h : history) (e : event) : history := (h ++ [e])%list.

Definition execute (sql : string) (params : Dict.t value) : M (option row) :=
  fun h =>
    let h' := log h (EExecute sql params) in
    match db_execute w h sql params with
    | ExecError => (Raise SQLAlchemyError, h')
    | ExecRow r => (Ret r, h')
    end.

Definition commit : M unit :=
  fun h =>
    if db_commit w h then (Ret tt, log h ECommit)
    else (Raise SQLAlchemyError, log h ECommit).

Definition rollback : M unit := fun h => (Ret tt, log h ERollback).

Definition close : M unit := fun h => (Ret tt, log h EClose).

(** *** Record Materializer *)

(** [result[alias]] on a [RowMapping]. *)
Definition row_getitem (alias : string) (result : row) : res value :=
  match Dict.get alias result with
  | Some v => Ret v
  | None => Raise (NoSuchColumnError alias)
  end.

Fixpoint fields_loop (result : row) (fields : Dict.t string)
    (ordered_record : pyrecord) : res pyrecord :=
  match fields with
  | [] => Ret ordered_record
  | (_, alias) :: rest =>
      rbind (row_getitem alias result) (fun v =>
      fields_loop result rest (Dict.set alias (serialize v) ordered_record))
  end.

Definition direct_step (result : row) (relationship : descriptor)
    (ordered_record : pyrecord) : pyrecord :=
  match d_alias relationship with
  | Some alias =>
      match Dict.get alias result with
      | Some v => Dict.set alias (serialize v) ordered_record
      | None => ordered_record
      end
  | None => ordered_record
  end.

(** The loop of [process_message] over the relationship schema. *)
Fixpoint materialize (result : row) (relationships : table_schema)
    (ordered_record : pyrecord) : res pyrecord :=
  match relationships with
  | [] => Ret ordered_record
  | (_, relationship) :: rest =>
      let ordered_record := direct_step result relationship ordered_record in
      match d_fields relationship with
      | Some fields =>
          rbind (fields_loop result fields ordered_record) (fun r =>
          materialize result rest r)
      | None => materialize result rest ordered_record
      end
  end.

Definition process_message (table id_name : string) (id_value : value)
    : M (option pyrecord * option string) :=
  (query <- lift (construct_query table id_name id_value) ;;
   try_except
     (result <- execute query [("id_value", id_value)] ;;
      if row_is_true result then
        match result with
        | Some result =>
            relationships <- lift (getitem table RELATIONSHIPS) ;;
            ordered_record <- lift (materialize result relationships []) ;;
            mret (Some ordered_record, None)
        | None => mret (None, Some "No record found.")
        end
      else mret (None, Some "No record found."))
     (mret (None, Some "Database error.")))%session.

(** *** Update Propagator *)

Record update_info : Type := UpdateInfo {
  columns : Dict.t value;
  related_id : value;
  related_column : string
}.

Definition updates_table : Type := Dict.t (list update_info).

Definition newline : string := String (ascii_of_nat 10) EmptyString.

(** Indentation of the lines of the triple-quoted UPDATE text. *)
Definition indent : string := "                    ".

Definition fetch_text (schema main_table primary_key_column : string) : string :=
  "SELECT * FROM " ++ schema ++ "." ++ main_table
    ++ " WHERE " ++ primary_key_column ++ " = :id_value".

Definition set_clause (key : string) : string := key ++ " = :" ++ key.

Definition update_text (related_table_name : string) (keys : list string)
    (related_column : string) : string :=
  newline ++ indent ++ "UPDATE " ++ related_table_name
    ++ newline ++ indent ++ "SET " ++ String.concat ", " (map set_clause keys)
    ++ newline ++ indent ++ "WHERE " ++ related_column ++ " = :related_id"
    ++ newline ++ indent.

(** [updates_per_table[name].append(u)] *)
Definition append_update (name : string) (u : update_info)
    (updates_per_table : updates_table) : updates_table :=
  match Dict.get name updates_per_table with
  | Some us => Dict.set name (us ++ [u])%list updates_per_table
  | None => updates_per_table
  end.

(** The type of the recursive call
    [update_database(session, table_name, id_name, id_value,
    updated_record, parent_result)]. *)
Definition propagate : Type :=
  string -> string -> value -> pyrecord -> option row -> M bool.

(** The staging of one branch:
    [if related_table_name not in updates_per_table: ... = []] and
    [if column in mapped_columns: updates_per_table[...].append({...})]. *)
Definition stage_branch (mapped_columns : Dict.t (Dict.t value))
    (column related_table_name related_column : string)
    (foreign_key_value : value) (updates_per_table : updates_table)
    : updates_table :=
  let updates_per_table :=
    if Dict.mem related_table_name updates_per_table
    then updates_per_table
    else Dict.set related_table_name [] updates_per_table in
  match Dict.get column mapped_columns with
  | Some cols =>
      append_update related_table_name
        (UpdateInfo cols foreign_key_value related_column)
        updates_per_table
  | None => updates_per_table
  end.

(** The loop over [RELATIONSHIPS[table_name].items()], with the recursive
    call left open. *)
Fixpoint stage_loop (rec : propagate) (result : row)
    (mapped_columns : Dict.t (Dict.t value)) (updated_record : pyrecord)
    (entries : table_schema) (updates_per_table : updates_table)
    : M updates_table :=
  match entries with
  | [] => mret updates_per_table
  | (column, ref_table_info) :: rest =>
      (ref_table <- lift (require "ref" (d_ref ref_table_info)) ;;
       parts <- lift (split3 ref_table) ;;
       let '(related_schema, related_table, related_column) := parts in
       let related_table_name := related_schema ++ "." ++ related_table in
       let foreign_key_value := row_get column result in
       if is_None foreign_key_value then
         stage_loop rec result mapped_columns updated_record rest
                    updates_per_table
       else
         let updates_per_table :=
           stage_branch mapped_columns column related_table_name
                        related_column foreign_key_value updates_per_table in
         (if Dict.mem related_table_name RELATIONSHIPS then
            nested_success <-
              rec related_table_name (related_table ++ "." ++ related_column)
                  foreign_key_value updated_record (Some result) ;;
            mret tt
          else mret tt) ;;;
         stage_loop rec result mapped_columns updated_record rest
                    updates_per_table)%session
  end.

Definition execute_update (related_table_name : string) (u : update_info)
    : M unit :=
  if Dict.is_empty (columns u) then mret tt
  else
    let update_query :=
      update_text related_table_name (Dict.keys (columns u))
                  (related_column u) in
    let params := Dict.set "related_id" (related_id u) (columns u) in
    (execute update_query params ;;; mret tt)%session.

Fixpoint for_each {A} (f : A -> M unit) (l : list A) : M unit :=
  match l with
  | [] => mret tt
  | x :: rest => (f x ;;; for_each f rest)%session
  end.

Definition execute_updates (updates_per_table : updates_table) : M unit :=
  for_each (fun tu => for_each (execute_update (fst tu)) (snd tu))
           updates_per_table.

(** [text(fetch_query)] after the commit: the name is bound only on the
    path that fetched the row. *)
Definition read_fetch_query (fetch_query : option string) : res string :=
  match fetch_query with
  | Some q => Ret q
  | None => Raise (UnboundLocalError "fetch_query")
  end.

(** Lines 138-142: the row of the call and, when the call fetched it
    itself, the text of the fetch that [fetch_query] is bound to. *)
Definition resolve_row (schema main_table primary_key_column : string)
    (id_value : value) (parent_result : option row)
    : M (option string * option row) :=
  match parent_result with
  | None =>
      let fetch_query := fetch_text schema main_table primary_key_column in
      (result <- execute fetch_query [("id_value", id_value)] ;;
       mret (Some fetch_query, result))%session
  | Some _ => mret (None, parent_result)
  end.

(** Lines 190-222: the staged updates, the commit, the re-fetch. *)
Definition apply_updates (updates_per_table : updates_table)
    (fetch_query : option string) (id_value : value) : M bool :=
  (execute_updates updates_per_table ;;;
   commit ;;;
   q <- lift (read_fetch_query fetch_query) ;;
   execute q [("id_value", id_value)] ;;;
   mret true)%session.

(** Lines 144-222: what the call does once its row is resolved. *)
Definition propagate_row (rec : propagate) (table_name : string)
    (id_value : value) (updated_record : pyrecord)
    (mapped_columns : Dict.t (Dict.t value))
    (fetch_query : option string) (result : option row) : M bool :=
  if row_is_true result then
    match result with
    | Some result =>
        (entries <- lift (getitem table_name RELATIONSHIPS) ;;
         updates_per_table <-
           stage_loop rec result mapped_columns updated_record entries [] ;;
         apply_updates updates_per_table fetch_query id_value)%session
    | None => mret false
    end
  else mret false.

(** The body of the [try] block. *)
Definition update_database_try (rec : propagate)
    (table_name id_name : string) (id_value : value)
    (updated_record : pyrecord) (parent_result : option row)
    (mapped_columns : Dict.t (Dict.t value)) : M bool :=
  (st <- lift (split2 table_name) ;;
   let '(schema, main_table) := st in
   let primary_key_column := last_component id_name in
   fr <- resolve_row schema main_table primary_key_column id_value
                     parent_result ;;
   let '(fetch_query, result) := fr in
   propagate_row rec table_name id_value updated_record mapped_columns
                 fetch_query result)%session.

Definition update_database_body (rec : propagate)
    (table_name id_name : string) (id_value : value)
    (updated_record : pyrecord) (parent_result : option row) : M bool :=
  (relationships <- lift (getitem table_name RELATIONSHIPS) ;;
   let mapped_columns := map_fields_to_columns updated_record relationships in
   try_except
     (update_database_try rec table_name id_name id_value updated_record
                          parent_result mapped_columns)
     (rollback ;;; mret false))%session.

Fixpoint update_database_rec (depth : nat) : propagate :=
  match depth with
  | O => fun _ _ _ _ _ => mraise RecursionError
  | S depth' => update_database_body (update_database_rec depth')
  end.

Definition update_database : propagate := update_database_rec recursion_limit.

(** *** Amendment Oracle adapter *)

Definition str_of_Z (z : Z) : string := NilEmpty.string_of_int (Z.to_int z).

Definition map_corrections_using_gpt (record : pyrecord)
    (user_message : option string) : M (option pyrecord * option string) :=
  fun h =>
    let response := oracle_post w h record user_message in
    let h' := log h (EPost record user_message) in
    if Z.eqb (status_code response) 200 then
      match json_loads (content response) with
      | Some (VDict corrections) => (Ret (Some corrections, None), h')
      | Some _ => (Ret (None, Some "Received non-JSON object"), h')
      | None => (Ret (None, Some "Failed to parse corrections"), h')
      end
    else
      (Ret (None, Some ("OpenAI API request failed: "
                          ++ str_of_Z (status_code response))), h').

(** *** The inbound endpoint *)

Record request : Type := Request {
  req_message : option string;
  req_id_name : option string;
  req_id_value : option string
}.

(** Truth value of an optional string: [None] and [""] are false. *)
Definition str_is_true (o : option string) : bool :=
  match o with
  | Some (String _ _) => true
  | _ => false
  end.

(** Truth value of an optional record: [None] and [{}] are false. *)
Definition record_is_true (o : option pyrecord) : bool :=
  match o with
  | Some (_ :: _) => true
  | _ => false
  end.

Definition unwrap_str (o : option string) : string :=
  match o with Some s => s | None => EmptyString end.

Definition unwrap_record (o : option pyrecord) : pyrecord :=
  match o with Some r => r | None => [] end.

Definition root_table : string := "bookings.transfer_services".

(** The handler of [POST /message]; the result is the body of the
    response and its status. *)
Definition message (req : request) : M (string * Z) :=
  let user_message := req_message req in
  let id_name := req_id_name req in
  let id_value := req_id_value req in
  let table_name := root_table in
  if negb (str_is_true id_name) || negb (str_is_true id_value) then
    mret ("id_name and id_value are required.", 400%Z)
  else
    (ce <- process_message table_name (unwrap_str id_name)
                           (VStr (unwrap_str id_value)) ;;
     let '(current_record, error) := ce in
     if str_is_true error then
       close ;;; mret (unwrap_str error, 500%Z)
     else if negb (record_is_true current_record) then
       close ;;; mret ("No record found.", 404%Z)
     else
       let current_record := unwrap_record current_record in
       ce' <- map_corrections_using_gpt current_record user_message ;;
       let '(corrections, error) := ce' in
       if record_is_true corrections then
         let corrections := unwrap_record corrections in
         success <- update_database table_name (unwrap_str id_name)
                      (VStr (unwrap_str id_value)) corrections None ;;
         close ;;;
         if success : bool then
           let updated_record := Dict.merge current_record corrections in
           mret (generate_response updated_record, 200%Z)
         else
           mret ("Failed to update the record in the database.", 500%Z)
       else
         close ;;;
         if str_is_true error then
           mret ("Failed to process the corrections. Please try again.", 500%Z)
         else
           mret (generate_response current_record, 200%Z))%session.

End Engine.

(** * Example data *)

(** [isoformat] of naive and offset-aware values, as CPython prints them:
    zero-padded fields, microseconds only when non-zero, the offset as
    [+HH:MM]. *)
Definition pad (width : nat) (n : Z) : string :=
  let s := str_of_Z n in
  let fix zeros (k : nat) : string :=
    match k with O => EmptyString | S k' => String "0"%char (zeros k') end in
  zeros (width - String.length s) ++ s.

Definition iso_date (y m d : Z) : string :=
  pad 4 y ++ "-" ++ pad 2 m ++ "-" ++ pad 2 d.

Definition iso_offset (o : option Z) : string :=
  match o with
  | None => EmptyString
  | Some minutes =>
      (if (minutes <? 0)%Z then "-" else "+")
        ++ pad 2 (Z.abs minutes / 60) ++ ":" ++ pad 2 (Z.abs minutes mod 60)
  end.

Definition iso_time (h m s us : Z) (o : option Z) : string :=
  pad 2 h ++ ":" ++ pad 2 m ++ ":" ++ pad 2 s
    ++ (if (us =? 0)%Z then EmptyString else "." ++ pad 6 us)
    ++ iso_offset o.

Definition py_isoformat (t : temporal) : string :=
  match t with
  | PyDatetime y mo d h mi s us o => iso_date y mo d ++ "T" ++ iso_time h mi s us o
  | PyDate y mo d => iso_date y mo d
  | PyTime h mi s us o => iso_time h mi s us o
  end.

(** [float()] of a [Decimal] with a non-negative exponent and a small
    coefficient is exact; this stand-in is only applied to such values. *)
Definition float_of_integral_decimal (d : Decimal) : pyfloat :=
  let magnitude := (dec_coefficient d * 10 ^ dec_exponent d)%Z in
  MkFloat (if dec_negative d then (- magnitude)%Z else magnitude) 0.

Definition quoted (s : string) : string := dquote ++ s ++ dquote.

Definition amendment_text : string :=
  "{" ++ quoted "customer_name" ++ ": " ++ quoted "Ana Lopez" ++ "}".

Definition array_text : string := "[" ++ quoted "Ana Lopez" ++ "]".

(** A decoder that knows the oracle answers used below. *)
Definition demo_json_loads (s : string) : option value :=
  if String.eqb s amendment_text
  then Some (VDict [("customer_name", VStr "Ana Lopez")])
  else if String.eqb s array_text
  then Some (VList [VStr "Ana Lopez"])
  else if String.eqb s "{}" then Some (VDict [])
  else None.

(** A formatter for records of strings and integers. *)
Definition demo_generate_response (r : pyrecord) : string :=
  "I have now in my records the following: "
    ++ String.concat ". "
         (flat_map
            (fun kv =>
               match snd kv with
               | VStr s => [fst kv ++ " is " ++ s]
               | VInt n => [fst kv ++ " is " ++ str_of_Z n]
               | _ => []
               end) r)
    ++ ". If you need modifications, please state them. "
    ++ "Otherwise, we thank you for completing your record.".

(** The end-to-end scenario of the specification. *)
Definition scenario_schema : relationship_schema :=
  [("bookings.transfer_services",
    [("status", scalar "status");
     ("customer_id",
      link "bookings.customers.id" [("name", "customer_name")])])].

Definition scenario_root_row : row :=
  [("id", VInt 1); ("status", VStr "pending"); ("customer_id", VInt 7)].

Definition scenario_joined_row : row :=
  [("status", VStr "pending"); ("customer_name", VStr "Ana")].

(** A database that holds the scenario's row, never fails, and a
    correction service that answers [reply]. *)
Definition scenario_world (reply : oracle_reply) : World :=
  MkWorld
    (fun _ sql _ =>
       if String.prefix "SELECT *" sql then ExecRow (Some scenario_root_row)
       else if String.prefix "SELECT" sql then ExecRow (Some scenario_joined_row)
       else ExecRow None)
    (fun _ => true)
    (fun _ _ _ => reply).

(** The same database with no matching row. *)
Definition empty_world : World :=
  MkWorld (fun _ _ _ => ExecRow None) (fun _ => true)
          (fun _ _ _ => OracleReply 200 "{}").

Definition scenario_request : request :=
  Request (Some "the customer is Ana Lopez") (Some "id") (Some "1").

(** A table without relationship entries, entered as a recursive call
    is: with the row of the caller. *)
Definition leaf_schema : relationship_schema := [("bookings.customers", [])].

Definition caller_row : row := [("id", VInt 1); ("customer_id", VInt 7)].

(** A database whose statements succeed until the first commit and fail
    after it. *)
Definition fails_after_commit : World :=
  MkWorld
    (fun h _ _ =>
       if existsb (fun e => match e with ECommit => true | _ => false end) h
       then ExecError
       else ExecRow (Some caller_row))
    (fun _ => true)
    (fun _ _ _ => OracleReply 200 "{}").

Definition links_only_schema : relationship_schema :=
  [("bookings.transfer_services",
    [("customer_id",
      link "bookings.customers.id" [("name", "customer_name")])])].

(** A schema and a row with a date and a decimal. *)
Definition dated_schema : table_schema :=
  [("pickup_on", scalar "pickup_date");
   ("customer_id",
    link "bookings.customers.id" [("balance", "customer_balance")])].

Definition dated_row : row :=
  [("customer_balance", VDecimal (MkDecimal false 125 0));
   ("pickup_date", VTemporal (PyDate 2024 1 2))].

(** The Record materialized from [dated_row]. *)
Definition dated_record : pyrecord :=
  [("pickup_date", VStr "2024-01-02");
   ("customer_balance", VFloat (MkFloat 125 0))].


Definition branch_row : row :=
  [("id", VInt 1); ("customer_id", VInt 7); ("driver_id", VInt 9);
   ("city_id", VInt 3)].

Definition branch_amendment : pyrecord :=
  [("customer_name", VStr "Ana Lopez"); ("driver_phone", VStr "555");
   ("customer_city", VStr "Lima")].


(** * Vocabulary of the properties *)

(** The identifiers that the static schema mentions: the components of
    the table names, the local column names, and for every entry its
    alias, the components of its [ref] and the names and aliases of its
    fields. *)
Definition descriptor_identifiers (d : descriptor) : list string :=
  ((match d_alias d with Some a => [a] | None => [] end)
   ++ (match d_ref d with Some r => split dot r | None => [] end)
   ++ (match d_fields d with
       | Some fs => flat_map (fun f => [fst f; snd f]) fs
       | None => []
       end))%list.

Definition table_identifiers (entries : table_schema) : list string :=
  flat_map (fun cd => fst cd :: descriptor_identifiers (snd cd)) entries.

Definition schema_identifiers (R : relationship_schema) : list string :=
  flat_map (fun te => (split dot (fst te) ++ table_identifiers (snd te))%list) R.

(** The statements of the Update Propagator whose identifiers all come
    from the schema [R], the lookup column of the root fetch apart: it is
    [lookup] when the call fetches its row itself. *)
Inductive propagation_statement (R : relationship_schema)
    (lookup : option string) : string -> Prop :=
| PS_fetch : forall schema table column,
    lookup = Some column ->
    In schema (schema_identifiers R) ->
    In table (schema_identifiers R) ->
    propagation_statement R lookup (fetch_text schema table column)
| PS_update : forall ref_schema ref_table keys ref_column,
    In ref_schema (schema_identifiers R) ->
    In ref_table (schema_identifiers R) ->
    incl keys (schema_identifiers R) ->
    In ref_column (schema_identifiers R) ->
    propagation_statement R lookup
      (update_text (ref_schema ++ "." ++ ref_table) keys ref_column).

Definition propagation_event (R : relationship_schema)
    (lookup : option string) (e : event) : Prop :=
  match e with
  | EExecute sql _ => propagation_statement R lookup sql
  | EPost _ _ => False
  | _ => True
  end.

(** The lookup column a call of [update_database] puts in its fetch. *)
Definition lookup_of (id_name : string) (parent_result : option row)
    : option string :=
  match parent_result with
  | None => Some (last_component id_name)
  | Some _ => None
  end.

(** Staged updates whose identifiers all come from the schema. *)
Definition staged_from_schema (R : relationship_schema)
    (updates_per_table : updates_table) : Prop :=
  forall name us u,
    In (name, us) updates_per_table -> In u us ->
    exists ref_schema ref_table,
      name = ref_schema ++ "." ++ ref_table
      /\ In ref_schema (schema_identifiers R)
      /\ In ref_table (schema_identifiers R)
      /\ In (related_column u) (schema_identifiers R)
      /\ incl (Dict.keys (columns u)) (schema_identifiers R).

(** [h'] extends [h] by events that all satisfy [P]. *)
Definition extends_with (P : event -> Prop) (h h' : history) : Prop :=
  exists new, h' = (h ++ new)%list /\ Forall P new.

(** The text of the first statement executed in a run of events. *)
Definition first_statement (l : history) : option string :=
  match statements l with
  | [] => None
  | sql :: _ => Some sql
  end.

(** The events that follow the call of the correction service. *)
Fixpoint after_post (l : history) : history :=
  match l with
  | [] => []
  | EPost _ _ :: rest => rest
  | _ :: rest => after_post rest
  end.




(** The aliases the Record Materializer writes for one entry, in the
    order it writes them: the alias of the entry when the row has it,
    then the aliases of its fields. *)
Definition entry_aliases (result : row) (d : descriptor) : list string :=
  ((match d_alias d with
    | Some a => if Dict.mem a result then [a] else []
    | None => []
    end)
   ++ (match d_fields d with Some fs => map snd fs | None => [] end))%list.

(** The aliases of a table in declaration order. *)
Definition declared_aliases (result : row) (entries : table_schema)
    : list string :=
  flat_map (fun cd => entry_aliases result (snd cd)) entries.

Definition field_aliases (entries : table_schema) : list string :=
  flat_map (fun cd => match d_fields (snd cd) with
                      | Some fs => map snd fs
                      | None => []
                      end) entries.

(** The elements of [l] not in [seen], each at its first occurrence. *)
Fixpoint fresh (seen l : list string) : list string :=
  match l with
  | [] => []
  | a :: rest =>
      if existsb (String.eqb a) seen then fresh seen rest
      else a :: fresh (seen ++ [a]) rest
  end.

Definition first_occurrences (l : list string) : list string := fresh [] l.

Definition is_temporal_or_decimal (v : value) : bool :=
  match v with
  | VTemporal _ | VDecimal _ => true
  | _ => false
  end.

(** One assignment [ordered_record[alias] = serialize(result[alias])]. *)
Definition write_alias (isoformat : temporal -> string)
    (float_of_decimal : Decimal -> pyfloat) (result : row)
    (ordered_record : pyrecord) (alias : string) : pyrecord :=
  Dict.set alias (serialize isoformat float_of_decimal (row_get alias result))
           ordered_record.

(** The staging of the loop of [update_database] with the recursive calls
    erased: what the loop stages when every recursive call returns. *)
Fixpoint staged_updates (mapped_columns : Dict.t (Dict.t value))
    (result : row) (entries : table_schema) (upt : updates_table)
    : res updates_table :=
  match entries with
  | [] => Ret upt
  | (column, d) :: rest =>
      rbind (require "ref" (d_ref d)) (fun ref =>
      rbind (split3 ref) (fun parts =>
      let '(rs, rt, rc) := parts in
      if is_None (row_get column result) then
        staged_updates mapped_columns result rest upt
      else
        staged_updates mapped_columns result rest
          (stage_branch mapped_columns column (rs ++ "." ++ rt) rc
                        (row_get column result) upt)))
  end.

(** The statements that [execute_updates] sends for staged updates. *)
Definition update_event (name : string) (u : update_info) : history :=
  if Dict.is_empty (columns u) then []
  else [EExecute (update_text name (Dict.keys (columns u)) (related_column u))
                 (Dict.set "related_id" (related_id u) (columns u))].

Definition update_events (upt : updates_table) : history :=
  flat_map (fun tu => flat_map (update_event (fst tu)) (snd tu)) upt.

(** The database never fails on the statement of [e]. *)
Definition succeeds (w : World) (e : event) : Prop :=
  match e with
  | EExecute sql params => forall h, db_execute w h sql params <> ExecError
  | _ => True
  end.

(** Every recursive call that the loop makes for [entries] returns,
    with success or with failure. *)
Definition nested_calls_return (R : relationship_schema) (rec : propagate)
    (result : row) (updated_record : pyrecord) (entries : table_schema)
    : Prop :=
  forall column d ref rs rt rc h,
    In (column, d) entries ->
    d_ref d = Some ref -> split3 ref = Ret (rs, rt, rc) ->
    is_None (row_get column result) = false ->
    Dict.mem (rs ++ "." ++ rt) R = true ->
    exists b h',
      rec (rs ++ "." ++ rt) (rt ++ "." ++ rc) (row_get column result)
          updated_record (Some result) h = (Ret b, h').

(** [c in s] *)
Fixpoint has_char (c : ascii) (s : string) : bool :=
  match s with
  | EmptyString => false
  | String x r => Ascii.eqb x c || has_char c r
  end.

(** The aliases [construct_query] labels its SELECT list with: the alias
    of an entry without [ref], the aliases of the fields of a link. *)
Definition selected_aliases (entries : table_schema) : list string :=
  flat_map
    (fun cd =>
       match d_ref (snd cd) with
       | Some _ =>
           match d_fields (snd cd) with
           | Some fs => map snd fs
           | None => []
           end
       | None =>
           match d_alias (snd cd) with Some a => [a] | None => [] end
       end) entries.

(** [text] is a SELECT column labelled [alias]. *)
Definition labelled (text alias : string) : Prop :=
  exists expression, text = expression ++ " AS " ++ dquote ++ alias ++ dquote.

(** A database that returns a row without the customer's name. *)
Definition partial_row_world : World :=
  MkWorld (fun _ _ _ => ExecRow (Some [("status", VStr "pending")]))
          (fun _ => true)
          (fun _ _ _ => OracleReply 200 "{}").

(** The aliases that the entries of a table name, for the entries
    themselves and for their fields. *)
Definition named_aliases (entries : table_schema) : list string :=
  flat_map
    (fun cd =>
       ((match d_alias (snd cd) with Some a => [a] | None => [] end)
        ++ (match d_fields (snd cd) with
            | Some fs => map snd fs
            | None => []
            end))%list) entries.

(** Sending one statement; any other event is only recorded. *)
Definition send (w : World) (e : event) : M unit :=
  match e with
  | EExecute sql params => mbind (execute w sql params) (fun _ => mret tt)
  | _ => fun h => (Ret tt, log h e)
  end.

(** The database always fails on the statement of [e]. *)
Definition fails (w : World) (e : event) : Prop :=
  match e with
  | EExecute sql params => forall h, db_execute w h sql params = ExecError
  | _ => False
  end.

(** A link whose [ref] has three components. *)
Definition link_ok (d : descriptor) : bool :=
  match d_ref d with
  | Some ref => match split3 ref with Ret _ => true | Raise _ => false end
  | None => false
  end.

(** A root with two links to tables that have no entry of their own. *)
Definition two_links_schema : relationship_schema :=
  [("bookings.transfer_services",
    [("customer_id",
      link "bookings.customers.id" [("name", "customer_name")]);
     ("driver_id",
      link "bookings.drivers.id" [("phone", "driver_phone")])])].

(** Databases that hold [branch_row] and fail, the first on the UPDATE of
    [bookings.customers], the second on every commit. *)
Definition customers_fail : World :=
  MkWorld
    (fun _ sql _ =>
       if String.eqb sql (update_text "bookings.customers" ["name"] "id")
       then ExecError
       else ExecRow (Some branch_row))
    (fun _ => true)
    (fun _ _ _ => OracleReply 200 "{}").

Definition commit_fails : World :=
  MkWorld (fun _ _ _ => ExecRow (Some branch_row)) (fun _ => false)
          (fun _ _ _ => OracleReply 200 "{}").

(** A database that holds [branch_row] and never fails. *)
Definition branch_world : World :=
  MkWorld (fun _ _ _ => ExecRow (Some branch_row)) (fun _ => true)
          (fun _ _ _ => OracleReply 200 "{}").

(** A row of the root whose foreign keys are null or absent. *)
Definition unlinked_row : row := [("id", VInt 1); ("customer_id", VNone)].

Definition unlinked_world : World :=
  MkWorld (fun _ _ _ => ExecRow (Some unlinked_row)) (fun _ => true)
          (fun _ _ _ => OracleReply 200 "{}").

(** A table with a link to itself. *)
Definition self_schema : relationship_schema :=
  [("bookings.customers",
    [("referrer_id",
      link "bookings.customers.id" [("name", "referrer_name")])])].

Definition self_row : row := [("id", VInt 7); ("referrer_id", VInt 3)].

Definition self_world : World :=
  MkWorld (fun _ _ _ => ExecRow (Some self_row)) (fun _ => true)
          (fun _ _ _ => OracleReply 200 "{}").

(** A root table that exposes nothing. *)
Definition bare_schema : relationship_schema :=
  [("bookings.transfer_services", [])].

(** The events a propagation may perform: a fetch bound to [id_value]
    only, an UPDATE whose [related_id] is bound to a value other than
    [None], a commit or a rollback. *)
Definition keyed_event (e : event) : Prop :=
  match e with
  | EExecute sql params =>
      (exists schema table column v,
         sql = fetch_text schema table column
         /\ params = [("id_value", v)])
      \/ (exists name keys column fk,
            sql = update_text name keys column
            /\ Dict.get "related_id" params = Some fk
            /\ is_None fk = false)
  | ECommit | ERollback => True
  | EClose | EPost _ _ => False
  end.

(** Staged updates whose foreign keys are not [None]. *)
Definition staged_with_keys (upt : updates_table) : Prop :=
  forall name us u, In (name, us) upt -> In u us ->
                    is_None (related_id u) = false.

(** The join aliases of a table, in declaration order: one per link,
    minted from the referenced table and the running counter. *)
Fixpoint join_aliases (entries : table_schema) (alias_counter : nat)
    : list string :=
  match entries with
  | [] => []
  | (_, d) :: rest =>
      match d_ref d with
      | Some ref =>
          match split3 ref with
          | Ret (_, ref_table, _) =>
              ref_alias_name ref_table alias_counter
                :: join_aliases rest (S alias_counter)
          | Raise _ => []
          end
      | None => join_aliases rest alias_counter
      end
  end.

(** A JOIN clause that names its table [alias]. *)
Definition joined_as (clause alias : string) : Prop :=
  exists ref_schema ref_table schema table_name column ref_column,
    clause = join_clause_text ref_schema ref_table alias
                              schema table_name column ref_column.

(** * Properties *)

Ltac run :=
  unfold mbind, lift, mret, mraise, try_except, execute, commit, rollback,
    close, rbind, getitem, require in *.

(** ** Dictionaries *)

Lemma dict_get_In {V} (k : string) (d : Dict.t V) (v : V) :
  Dict.get k d = Some v -> In (k, v) d.
Proof.
  induction d as [|[k' v'] d IH]; simpl; [discriminate|].
  destruct (String.eqb_spec k k') as [->|Hne].
  - intros [= ->]. now left.
  - intros H. right. now apply IH.
Qed.

Lemma dict_set_In {V} (k k' : string) (v v' : V) (d : Dict.t V) :
  In (k', v') (Dict.set k v d) -> (k', v') = (k, v) \/ In (k', v') d.
Proof.
  induction d as [|[k0 v0] d IH]; simpl.
  - intros [H|[]]. left. now symmetry.
  - destruct (String.eqb_spec k k0) as [->|Hne]; simpl.
    + intros [H|H]; [left; now symmetry | right; now right].
    + intros [H|H]; [right; now left|].
      destruct (IH H) as [E|E]; [now left | right; now right].
Qed.

Lemma dict_get_set_same {V} (k : string) (v : V) (d : Dict.t V) :
  Dict.get k (Dict.set k v d) = Some v.
Proof.
  induction d as [|[k0 v0] d IH]; simpl.
  - now rewrite String.eqb_refl.
  - destruct (String.eqb_spec k k0) as [->|Hne]; simpl.
    + now rewrite String.eqb_refl.
    + destruct (String.eqb_spec k k0); [contradiction | exact IH].
Qed.

Lemma dict_get_set_other {V} (k k' : string) (v : V) (d : Dict.t V) :
  k' <> k -> Dict.get k' (Dict.set k v d) = Dict.get k' d.
Proof.
  intros Hne. induction d as [|[k0 v0] d IH]; simpl.
  - destruct (String.eqb_spec k' k); [contradiction | reflexivity].
  - destruct (String.eqb_spec k k0) as [->|Hk]; simpl.
    + destruct (String.eqb_spec k' k0); [contradiction | reflexivity].
    + destruct (String.eqb_spec k' k0); [reflexivity | exact IH].
Qed.

Lemma dict_keys_set {V} (k : string) (v : V) (d : Dict.t V) :
  Dict.keys (Dict.set k v d)
  = if Dict.mem k d then Dict.keys d else (Dict.keys d ++ [k])%list.
Proof.
  unfold Dict.mem, Dict.keys.
  induction d as [|[k0 v0] d IH]; simpl; [reflexivity|].
  destruct (String.eqb_spec k k0) as [->|Hk]; simpl; [reflexivity|].
  rewrite IH. now destruct (Dict.get k d).
Qed.

Lemma dict_mem_keys {V} (k : string) (d : Dict.t V) :
  Dict.mem k d = true <-> In k (Dict.keys d).
Proof.
  unfold Dict.mem, Dict.keys.
  induction d as [|[k0 v0] d IH]; simpl.
  - split; [discriminate | intros []].
  - destruct (String.eqb_spec k k0) as [->|Hk].
    + split; [now left | reflexivity].
    + rewrite IH. split; [now right | intros [E|E]; [now subst | exact E]].
Qed.

(** ** Identifiers of the schema *)

Lemma split3_parts (s a b c : string) :
  split3 s = Ret (a, b, c) -> split dot s = [a; b; c].
Proof.
  unfold split3.
  destruct (split dot s) as [|x [|y [|z [|? ?]]]]; try discriminate.
  now intros [= -> -> ->].
Qed.

Lemma split2_parts (s a b : string) :
  split2 s = Ret (a, b) -> split dot s = [a; b].
Proof.
  unfold split2.
  destruct (split dot s) as [|x [|y [|? ?]]]; try discriminate.
  now intros [= -> ->].
Qed.

Lemma table_identifiers_incl (R : relationship_schema) (t : string)
    (entries : table_schema) :
  In (t, entries) R ->
  incl (split dot t ++ table_identifiers entries) (schema_identifiers R).
Proof.
  intros Hin x Hx. unfold schema_identifiers.
  apply in_flat_map. exists (t, entries). split; [exact Hin | exact Hx].
Qed.

Lemma descriptor_identifiers_incl (entries : table_schema) (c : string)
    (d : descriptor) :
  In (c, d) entries ->
  incl (c :: descriptor_identifiers d) (table_identifiers entries).
Proof.
  intros Hin x Hx. unfold table_identifiers.
  apply in_flat_map. exists (c, d). split; [exact Hin | exact Hx].
Qed.

Lemma map_fields_keys (record : pyrecord) (fields : Dict.t string) :
  forall bucket,
    incl (Dict.keys (fold_left (map_field record) fields bucket))
         (Dict.keys bucket ++ map fst fields).
Proof.
  induction fields as [|f fields IH]; intros bucket; simpl.
  - rewrite app_nil_r. apply incl_refl.
  - intros x Hx. apply IH in Hx. apply in_app_or in Hx.
    destruct Hx as [Hx|Hx]; [|apply in_or_app; right; now right].
    unfold map_field in Hx. destruct (Dict.get (snd f) record).
    + rewrite dict_keys_set in Hx. destruct (Dict.mem (fst f) bucket).
      * apply in_or_app. now left.
      * apply in_app_or in Hx. apply in_or_app.
        destruct Hx as [Hx|[Hx|[]]]; [now left | right; now left].
    + apply in_or_app. now left.
Qed.

Lemma map_entry_keys (record : pyrecord) (d : descriptor) :
  incl (Dict.keys (map_entry record d)) (descriptor_identifiers d).
Proof.
  assert (Hd : incl (Dict.keys (map_direct record d))
                 (match d_alias d with Some a => [a] | None => [] end)).
  { unfold map_direct. destruct (d_alias d) as [a|]; [|intros x []].
    destruct (Dict.get a record); [|intros x []].
    simpl. intros x Hx. exact Hx. }
  unfold map_entry, descriptor_identifiers.
  destruct (d_fields d) as [fields|].
  - intros x Hx. apply map_fields_keys in Hx. apply in_app_or in Hx.
    apply in_or_app. destruct Hx as [Hx|Hx]; [left; now apply Hd|].
    right. apply in_or_app. right.
    apply in_map_iff in Hx. destruct Hx as [f [<- Hf]].
    apply in_flat_map. exists f. split; [exact Hf | now left].
  - intros x Hx. apply in_or_app. left. now apply Hd.
Qed.

Lemma mapped_columns_entries (record : pyrecord) (entries : table_schema) :
  forall acc c cols,
    (forall c' cols', In (c', cols') acc ->
       exists d, In (c', d) entries /\ cols' = map_entry record d) ->
    forall rest,
      incl rest entries ->
      In (c, cols)
         (fold_left
            (fun mapped_columns '(table, columns) =>
               Dict.set table (map_entry record columns) mapped_columns)
            rest acc) ->
      exists d, In (c, d) entries /\ cols = map_entry record d.
Proof.
  intros acc c cols Hacc rest. revert acc Hacc.
  induction rest as [|[t d] rest IH]; intros acc Hacc Hincl Hin; simpl in Hin.
  - now apply Hacc.
  - apply IH in Hin; [exact Hin| |].
    + intros c' cols' H. apply dict_set_In in H. destruct H as [[= -> ->]|H].
      * exists d. split; [apply Hincl; now left | reflexivity].
      * now apply Hacc.
    + intros x Hx. apply Hincl. now right.
Qed.

Lemma mapped_columns_from_schema (record : pyrecord) (entries : table_schema)
    (c : string) (cols : Dict.t value) :
  Dict.get c (map_fields_to_columns record entries) = Some cols ->
  exists d, In (c, d) entries /\ cols = map_entry record d.
Proof.
  intros H. apply dict_get_In in H. unfold map_fields_to_columns in H.
  eapply mapped_columns_entries; [| apply incl_refl | exact H].
  intros c' cols' [].
Qed.

(** ** Histories *)

Lemma extends_refl (P : event -> Prop) (h : history) : extends_with P h h.
Proof. exists []. split; [now rewrite app_nil_r | constructor]. Qed.

Lemma extends_trans (P : event -> Prop) (h1 h2 h3 : history) :
  extends_with P h1 h2 -> extends_with P h2 h3 -> extends_with P h1 h3.
Proof.
  intros [n1 [-> F1]] [n2 [-> F2]]. exists (n1 ++ n2)%list.
  split; [now rewrite app_assoc | now apply Forall_app].
Qed.

Lemma extends_log (P : event -> Prop) (h : history) (e : event) :
  P e -> extends_with P h (log h e).
Proof. intros H. exists [e]. split; [reflexivity | now constructor]. Qed.

Lemma extends_weaken (P Q : event -> Prop) (h h' : history) :
  (forall e, P e -> Q e) -> extends_with P h h' -> extends_with Q h h'.
Proof.
  intros HPQ [n [-> F]]. exists n. split; [reflexivity|].
  eapply Forall_impl; [exact HPQ | exact F].
Qed.

Lemma execute_extends (w : World) (P : event -> Prop) (sql : string)
    (params : Dict.t value) (h : history) :
  P (EExecute sql params) ->
  extends_with P h (snd (execute w sql params h)).
Proof.
  intros H. unfold execute.
  destruct (db_execute w h sql params); simpl; now apply extends_log.
Qed.

Lemma for_each_extends {A} (P : event -> Prop) (f : A -> M unit) (l : list A) :
  (forall x, In x l -> forall h, extends_with P h (snd (f x h))) ->
  forall h, extends_with P h (snd (for_each f l h)).
Proof.
  induction l as [|x l IH]; intros Hf h; simpl.
  - apply extends_refl.
  - unfold mbind. pose proof (Hf x (or_introl eq_refl) h) as Hx.
    destruct (f x h) as [[[]|e] h1]; simpl in *; [|exact Hx].
    eapply extends_trans; [exact Hx|].
    apply IH. intros y Hy. apply Hf. now right.
Qed.

Lemma mbind_extends {A B} (P : event -> Prop) (m : M A) (k : A -> M B)
    (h : history) :
  extends_with P h (snd (m h)) ->
  (forall a h1, fst (m h) = Ret a -> snd (m h) = h1 ->
                extends_with P h1 (snd (k a h1))) ->
  extends_with P h (snd (mbind m k h)).
Proof.
  unfold mbind. destruct (m h) as [[a|e] h1]; simpl; intros Hm Hk.
  - eapply extends_trans; [exact Hm | now apply Hk].
  - exact Hm.
Qed.

Lemma try_except_extends {A} (P : event -> Prop) (body handler : M A)
    (h : history) :
  extends_with P h (snd (body h)) ->
  (forall h1, extends_with P h1 (snd (handler h1))) ->
  extends_with P h (snd (try_except body handler h)).
Proof.
  unfold try_except. destruct (body h) as [[a|e] h1]; simpl; intros Hb Hh.
  - exact Hb.
  - destruct (is_sqlalchemy_error e); [|exact Hb].
    eapply extends_trans; [exact Hb | apply Hh].
Qed.

Lemma propagation_event_weaken (R : relationship_schema)
    (lookup : option string) (e : event) :
  propagation_event R None e -> propagation_event R lookup e.
Proof.
  destruct e; simpl; auto.
  intros H. inversion H; subst; [discriminate | now constructor].
Qed.

(** ** Unfolding the staging loop *)

Lemma stage_loop_cons (R : relationship_schema) (rec : propagate)
    (result : row) (mapped_columns : Dict.t (Dict.t value))
    (updated_record : pyrecord) (column : string) (d : descriptor)
    (rest : table_schema) (upt : updates_table) (h : history) :
  stage_loop R rec result mapped_columns updated_record
             ((column, d) :: rest) upt h
  = match d_ref d with
    | None => (Raise (KeyError "ref"), h)
    | Some ref =>
        match split3 ref with
        | Raise e => (Raise e, h)
        | Ret (rs, rt, rc) =>
            if is_None (row_get column result) then
              stage_loop R rec result mapped_columns updated_record rest upt h
            else
              let upt' :=
                stage_branch mapped_columns column (rs ++ "." ++ rt) rc
                             (row_get column result) upt in
              if Dict.mem (rs ++ "." ++ rt) R then
                match rec (rs ++ "." ++ rt) (rt ++ "." ++ rc)
                          (row_get column result) updated_record
                          (Some result) h with
                | (Ret _, h1) =>
                    stage_loop R rec result mapped_columns updated_record
                               rest upt' h1
                | (Raise e, h1) => (Raise e, h1)
                end
              else
                stage_loop R rec result mapped_columns updated_record
                           rest upt' h
        end
    end.
Proof.
  cbn [stage_loop]. unfold mbind, lift, mret, require.
  destruct (d_ref d) as [ref|]; [|reflexivity].
  destruct (split3 ref) as [[[rs rt] rc]|e]; [|reflexivity].
  destruct (is_None (row_get column result)); [reflexivity|].
  destruct (Dict.mem (rs ++ "." ++ rt) R); [|reflexivity].
  destruct (rec _ _ _ _ _ h) as [[b|e] h1]; reflexivity.
Qed.

(** ** Statements of the Update Propagator *)

Section PropagationStatements.

Variable RELATIONSHIPS : relationship_schema.
Variable w : World.

Local Abbreviation ids := (schema_identifiers RELATIONSHIPS).
Local Abbreviation staged := (staged_from_schema RELATIONSHIPS).
Local Abbreviation nested_event := (propagation_event RELATIONSHIPS None).

Lemma staged_nil : staged [].
Proof. intros name us u []. Qed.

Lemma staged_set_empty (name : string) (upt : updates_table) :
  staged upt ->
  staged (if Dict.mem name upt then upt else Dict.set name [] upt).
Proof.
  intros H. destruct (Dict.mem name upt); [exact H|].
  intros n us u Hin Hu. apply dict_set_In in Hin.
  destruct Hin as [[= -> ->]|Hin]; [destruct Hu | eapply H; eassumption].
Qed.

Lemma staged_append (ref_schema ref_table : string) (u0 : update_info)
    (upt : updates_table) :
  staged upt ->
  In ref_schema ids -> In ref_table ids ->
  In (related_column u0) ids ->
  incl (Dict.keys (columns u0)) ids ->
  staged (append_update (ref_schema ++ "." ++ ref_table) u0 upt).
Proof.
  intros H Hs Ht Hc Hk. unfold append_update.
  destruct (Dict.get (ref_schema ++ "." ++ ref_table) upt) as [us0|] eqn:Hg;
    [|exact H].
  intros n us u Hin Hu. apply dict_set_In in Hin.
  destruct Hin as [[= -> ->]|Hin]; [|eapply H; eassumption].
  apply in_app_or in Hu. destruct Hu as [Hu|[<-|[]]].
  - eapply H; [apply dict_get_In; exact Hg | exact Hu].
  - exists ref_schema, ref_table. repeat split; assumption.
Qed.

Lemma execute_updates_extends (upt : updates_table) (h : history) :
  staged upt ->
  extends_with nested_event h (snd (execute_updates w upt h)).
Proof.
  intros H. unfold execute_updates. apply for_each_extends.
  intros [name us] Hin h1. apply for_each_extends.
  intros u Hu h2. simpl. unfold execute_update.
  destruct (Dict.is_empty (columns u)); [apply extends_refl|].
  unfold mbind.
  pose proof (execute_extends w nested_event
                (update_text name (Dict.keys (columns u)) (related_column u))
                (Dict.set "related_id" (related_id u) (columns u)) h2) as He.
  destruct (H name us u Hin Hu) as [rs [rt [-> [Hs [Ht [Hc Hk]]]]]].
  destruct (execute w _ _ h2) as [[r|e] h3]; simpl in *;
    apply He; now constructor.
Qed.

Section Loop.

Variable rec : propagate.
Hypothesis rec_extends :
  forall t n v u r h,
    extends_with nested_event h (snd (rec t n v u (Some r) h)).

Variable all : table_schema.
Hypothesis all_ids : incl (table_identifiers all) ids.

Variable updated_record : pyrecord.
Variable result : row.

Lemma stage_branch_staged (column ref rs rt rc : string) (d : descriptor)
    (fk : value) (upt : updates_table) :
  In (column, d) all -> d_ref d = Some ref -> split3 ref = Ret (rs, rt, rc) ->
  staged upt ->
  staged (stage_branch (map_fields_to_columns updated_record all)
            column (rs ++ "." ++ rt) rc fk upt).
Proof.
  intros Hin Href Hsplit Hupt. apply split3_parts in Hsplit.
  assert (Hparts : incl [rs; rt; rc] ids).
  { intros x Hx. apply all_ids.
    eapply descriptor_identifiers_incl; [exact Hin|]. right.
    unfold descriptor_identifiers.
    rewrite Href, Hsplit. apply in_or_app. right. apply in_or_app. now left. }
  unfold stage_branch.
  destruct (Dict.get column (map_fields_to_columns updated_record all))
    as [cols|] eqn:Hcols; [|now apply staged_set_empty].
  apply mapped_columns_from_schema in Hcols.
  destruct Hcols as [d' [Hd' ->]].
  apply staged_append; [now apply staged_set_empty | | | |].
  - apply Hparts. now left.
  - apply Hparts. right. now left.
  - apply Hparts. right. right. now left.
  - simpl. intros x Hx. apply map_entry_keys in Hx. apply all_ids.
    eapply descriptor_identifiers_incl; [exact Hd' | now right].
Qed.

Lemma stage_loop_extends (entries : table_schema) :
  incl entries all ->
  forall upt h,
    staged upt ->
    extends_with nested_event h
      (snd (stage_loop RELATIONSHIPS rec result
              (map_fields_to_columns updated_record all)
              updated_record entries upt h))
    /\ forall upt',
         fst (stage_loop RELATIONSHIPS rec result
                (map_fields_to_columns updated_record all)
                updated_record entries upt h) = Ret upt' ->
         staged upt'.
Proof.
  induction entries as [|[column d] rest IH]; intros Hincl upt h Hupt.
  - simpl. unfold mret. simpl.
    split; [apply extends_refl | now intros upt' [= <-]].
  - assert (Hrest : incl rest all) by (intros x Hx; apply Hincl; now right).
    rewrite stage_loop_cons.
    destruct (d_ref d) as [ref|] eqn:Href;
      [|simpl; split; [apply extends_refl | discriminate]].
    destruct (split3 ref) as [[[rs rt] rc]|e] eqn:Hsplit;
      [|simpl; split; [apply extends_refl | discriminate]].
    destruct (is_None (row_get column result)); [now apply IH|].
    assert (Hupt2 : staged
              (stage_branch (map_fields_to_columns updated_record all) column
                 (rs ++ "." ++ rt) rc (row_get column result) upt)).
    { eapply stage_branch_staged; try eassumption. apply Hincl. now left. }
    destruct (Dict.mem (rs ++ "." ++ rt) RELATIONSHIPS); [|now apply IH].
    pose proof (rec_extends (rs ++ "." ++ rt) (rt ++ "." ++ rc)
                  (row_get column result) updated_record result h) as Hrec.
    destruct (rec _ _ _ _ _ h) as [[b|e] h1]; simpl in Hrec.
    + destruct (IH Hrest _ h1 Hupt2) as [He Hs].
      split; [eapply extends_trans; eassumption | exact Hs].
    + simpl. split; [exact Hrec | discriminate].
Qed.

End Loop.

Lemma apply_updates_extends (lookup : option string) (upt : updates_table)
    (fetch_query : option string) (id_value : value) (h : history) :
  staged upt ->
  (forall q, fetch_query = Some q ->
             propagation_statement RELATIONSHIPS lookup q) ->
  extends_with (propagation_event RELATIONSHIPS lookup) h
    (snd (apply_updates w upt fetch_query id_value h)).
Proof.
  intros Hupt Hq. unfold apply_updates.
  apply mbind_extends.
  { eapply extends_weaken; [apply propagation_event_weaken|].
    now apply execute_updates_extends. }
  intros _ h1 _ _. apply mbind_extends.
  { unfold commit. destruct (db_commit w h1); simpl; now apply extends_log. }
  intros _ h2 _ _. apply mbind_extends.
  { unfold lift. simpl. apply extends_refl. }
  intros q h3 Hfq _. apply mbind_extends.
  { apply execute_extends. simpl. apply Hq.
    unfold lift, read_fetch_query in Hfq. simpl in Hfq.
    destruct fetch_query; [now inversion Hfq | discriminate]. }
  intros _ h4 _ _. apply extends_refl.
Qed.

Lemma propagate_row_extends (rec : propagate) (lookup : option string) :
  (forall t n v u r h,
     extends_with nested_event h (snd (rec t n v u (Some r) h))) ->
  forall t entries v u fq result h,
    Dict.get t RELATIONSHIPS = Some entries ->
    (forall q, fq = Some q -> propagation_statement RELATIONSHIPS lookup q) ->
    extends_with (propagation_event RELATIONSHIPS lookup) h
      (snd (propagate_row RELATIONSHIPS w rec t v u
              (map_fields_to_columns u entries) fq result h)).
Proof.
  intros Hrec t entries v u fq result h Ht Hfq.
  pose proof (table_identifiers_incl _ _ _ (dict_get_In _ _ _ Ht)) as Hids.
  unfold propagate_row.
  destruct (row_is_true result); [|apply extends_refl].
  destruct result as [result|]; [|apply extends_refl].
  unfold getitem. rewrite Ht.
  assert (He : incl (table_identifiers entries) ids).
  { intros x Hx. apply Hids. apply in_or_app. now right. }
  destruct (stage_loop_extends rec Hrec entries He u result entries
              (incl_refl _) [] h staged_nil) as [Hext Hst].
  apply mbind_extends; [apply extends_refl|].
  intros entries' h3 Hget Hh. unfold lift in Hget, Hh. simpl in Hget, Hh.
  inversion Hget; subst entries' h3. clear Hget.
  apply mbind_extends.
  { eapply extends_weaken; [apply propagation_event_weaken | exact Hext]. }
  intros upt h4 Hupt _.
  apply apply_updates_extends; [now apply Hst | exact Hfq].
Qed.

Lemma fetch_text_from_schema (t schema main_table column : string)
    (entries : table_schema) :
  Dict.get t RELATIONSHIPS = Some entries ->
  split2 t = Ret (schema, main_table) ->
  propagation_statement RELATIONSHIPS (Some column)
    (fetch_text schema main_table column).
Proof.
  intros Ht Hsplit. apply split2_parts in Hsplit.
  pose proof (table_identifiers_incl _ _ _ (dict_get_In _ _ _ Ht)) as Hids.
  apply PS_fetch; [reflexivity| |]; apply Hids; apply in_or_app; left;
    rewrite Hsplit; [now left | right; now left].
Qed.

Lemma update_database_body_extends (rec : propagate) :
  (forall t n v u r h,
     extends_with nested_event h (snd (rec t n v u (Some r) h))) ->
  forall t n v u pr h,
    extends_with (propagation_event RELATIONSHIPS (lookup_of n pr)) h
      (snd (update_database_body RELATIONSHIPS w rec t n v u pr h)).
Proof.
  intros Hrec t n v u pr h. unfold update_database_body.
  apply mbind_extends; [apply extends_refl|].
  intros entries h0 Hget _. unfold lift, getitem in Hget. simpl in Hget.
  destruct (Dict.get t RELATIONSHIPS) as [entries'|] eqn:Ht;
    [|discriminate]. inversion Hget; subst entries'. clear Hget.
  apply try_except_extends.
  2: { intros h1. apply mbind_extends.
       - apply extends_log. exact I.
       - intros _ h2 _ _. apply extends_refl. }
  unfold update_database_try.
  apply mbind_extends; [apply extends_refl|].
  intros [schema main_table] h1 Hsplit _. unfold lift in Hsplit.
  simpl in Hsplit.
  pose proof (fetch_text_from_schema t schema main_table (last_component n)
                entries Ht Hsplit) as Hfetch.
  apply mbind_extends.
  { unfold resolve_row. destruct pr as [r|]; [apply extends_refl|].
    apply mbind_extends.
    - apply execute_extends. exact Hfetch.
    - intros ? ? _ _. apply extends_refl. }
  intros [fq result] h2 Hres _.
  apply propagate_row_extends; [exact Hrec | exact Ht |].
  intros q ->. unfold resolve_row in Hres. destruct pr as [r|].
  - discriminate.
  - unfold mbind, mret in Hres.
    destruct (execute w _ _ h1) as [[x|e] hx]; simpl in Hres;
      [|discriminate]. inversion Hres; subst. exact Hfetch.
Qed.

Lemma update_database_rec_extends (depth : nat) :
  forall t n v u pr h,
    extends_with (propagation_event RELATIONSHIPS (lookup_of n pr)) h
      (snd (update_database_rec RELATIONSHIPS w depth t n v u pr h)).
Proof.
  induction depth as [|depth IH]; intros t n v u pr h.
  - simpl. apply extends_refl.
  - simpl. apply update_database_body_extends.
    intros t' n' v' u' r h'. exact (IH t' n' v' u' (Some r) h').
Qed.

End PropagationStatements.

(** ** The text of the statements and the request *)

Lemma string_append_assoc (a b c : string) : (a ++ b) ++ c = a ++ (b ++ c).
Proof. induction a as [|x a IH]; simpl; [reflexivity | now rewrite IH]. Qed.

Lemma construct_query_text (R : relationship_schema) (table : string) :
  exists base,
    forall id_name id_value q,
      construct_query R table id_name id_value = Ret q ->
      q = base ++ last_component id_name ++ " = :id_value".
Proof.
  unfold construct_query, rbind.
  destruct (split2 table) as [[schema table_name]|e];
    [|exists EmptyString; discriminate].
  destruct (getitem table R) as [relationships|e];
    [|exists EmptyString; discriminate].
  destruct (select_loop schema table_name relationships 1 []) as [cols|e];
    [|exists EmptyString; discriminate].
  destruct (join_loop schema table_name relationships 1 []) as [joins|e];
    [|exists EmptyString; discriminate].
  match goal with
  | |- context [Ret (?query ++ where_clause _ _ _)] =>
      exists (query ++ " WHERE " ++ schema ++ "." ++ table_name ++ ".")
  end.
  intros id_name id_value q [= <-]. unfold where_clause.
  destruct joins; repeat (progress (cbn; rewrite ?string_append_assoc));
    reflexivity.
Qed.

(** C1, as the code has it: the lookup value never reaches the text of a
    statement; the text of the fetch is a prefix fixed by the schema and
    the table, followed by the last dot-separated component of [id_name]
    and the placeholder; two requests with the same last component get
    the same text; and every statement of the propagation is either the
    root fetch, whose lookup column is that component and whose table
    comes from the schema, or an UPDATE whose table, SET columns and
    lookup column all come from the schema. *)
Theorem only_the_lookup_column_comes_from_the_request :
  forall (R : relationship_schema) (w : World) (recursion_limit : nat)
         (table : string),
    (forall id_name id_value id_value',
       construct_query R table id_name id_value
       = construct_query R table id_name id_value')
    /\ (forall id_name id_name' id_value id_value',
          last_component id_name = last_component id_name' ->
          construct_query R table id_name id_value
          = construct_query R table id_name' id_value')
    /\ (exists base,
          forall id_name id_value q,
            construct_query R table id_name id_value = Ret q ->
            q = base ++ last_component id_name ++ " = :id_value")
    /\ (forall id_name id_value updated_record parent_result h,
          extends_with
            (propagation_event R (lookup_of id_name parent_result)) h
            (snd (update_database R w recursion_limit table id_name id_value
                    updated_record parent_result h))).
Proof.
  intros R w recursion_limit table. split; [|split; [|split]].
  - reflexivity.
  - intros id_name id_name' id_value id_value' H. unfold construct_query.
    now rewrite H.
  - apply construct_query_text.
  - intros id_name id_value updated_record parent_result h.
    apply update_database_rec_extends.
Qed.

(** C1 as stated fails: a request whose [id_name] is not an identifier of
    the schema gets it into the text of the fetch and of the root fetch of
    the propagation. *)
Lemma request_id_name_reaches_the_statement_text :
  ~ In "1 = 1 OR id" (schema_identifiers scenario_schema)
  /\ construct_query scenario_schema root_table "1 = 1 OR id" (VStr "1")
     <> construct_query scenario_schema root_table "id" (VStr "1")
  /\ construct_query scenario_schema root_table "1 = 1 OR id" (VStr "1")
     = Ret ("SELECT bookings.transfer_services.status AS " ++ quoted "status"
              ++ ", customers_alias_1.name AS " ++ quoted "customer_name"
              ++ " FROM bookings.transfer_services"
              ++ " LEFT JOIN bookings.customers AS customers_alias_1"
              ++ " ON bookings.transfer_services.customer_id"
              ++ " = customers_alias_1.id"
              ++ " WHERE bookings.transfer_services.1 = 1 OR id = :id_value")
  /\ statements
       (snd (update_database scenario_schema
               (scenario_world (OracleReply 200 amendment_text)) 8
               root_table "1 = 1 OR id" (VStr "1")
               [("customer_name", VStr "Ana Lopez")] None []))
     = ["SELECT * FROM bookings.transfer_services WHERE 1 = 1 OR id = :id_value"].
Proof.
  split; [|split; [|split]].
  - vm_compute. intuition discriminate.
  - vm_compute. discriminate.
  - vm_compute. reflexivity.
  - vm_compute. reflexivity.
Qed.

(** ** Outcome of a propagation call *)

Lemma apply_updates_unbound (w : World) (upt : updates_table) (v : value)
    (h : history) :
  exists e h', apply_updates w upt None v h = (Raise e, h').
Proof.
  unfold apply_updates, mbind.
  destruct (execute_updates w upt h) as [[[]|e] h1]; [|eauto].
  unfold commit. destruct (db_commit w h1); simpl; eauto.
Qed.

Lemma try_with_parent_row (R : relationship_schema) (w : World)
    (rec : propagate) (t n : string) (v : value) (u : pyrecord) (r : row)
    (mapped : Dict.t (Dict.t value)) (h : history) :
  (exists e h', update_database_try R w rec t n v u (Some r) mapped h
                = (Raise e, h'))
  \/ (exists h', update_database_try R w rec t n v u (Some r) mapped h
                 = (Ret false, h')).
Proof.
  unfold update_database_try, propagate_row, resolve_row, mbind, lift, mret.
  destruct (split2 t) as [[schema main_table]|e]; [|left; eauto].
  destruct (row_is_true (Some r)); [|right; eauto].
  destruct (getitem t R) as [entries|e]; [|left; eauto].
  destruct (stage_loop R rec r mapped u entries [] h) as [[upt|e] h1];
    [|left; eauto].
  destruct (apply_updates_unbound w upt v h1) as [e [h' ->]]. left; eauto.
Qed.

(** C3: the re-fetch after the commit decides the result of the call.  A
    call entered with a row supplied by its caller never returns [true]:
    [fetch_query] is unbound on that path, so a call whose updates all
    commit raises [UnboundLocalError] at the re-fetch; and a call that
    fetched its row itself returns [false] when the re-fetch fails,
    after its updates were committed. *)
Theorem refetch_decides_the_result :
  (forall R w rec t n v u r h,
     fst (update_database_body R w rec t n v u (Some r) h) <> Ret true)
  /\ update_database leaf_schema (scenario_world (OracleReply 200 "{}")) 8
       "bookings.customers" "customers.id" (VInt 7) [] (Some caller_row) []
     = (Raise (UnboundLocalError "fetch_query"), [ECommit])
  /\ update_database links_only_schema fails_after_commit 8
       root_table "id" (VStr "1") [("customer_name", VStr "Ana Lopez")]
       None []
     = (Ret false,
        [EExecute "SELECT * FROM bookings.transfer_services WHERE id = :id_value"
                  [("id_value", VStr "1")];
         EExecute (update_text "bookings.customers" ["name"] "id")
                  [("name", VStr "Ana Lopez"); ("related_id", VInt 7)];
         ECommit;
         EExecute "SELECT * FROM bookings.transfer_services WHERE id = :id_value"
                  [("id_value", VStr "1")];
         ERollback]).
Proof.
  split; [|split; vm_compute; reflexivity].
  intros R w rec t n v u r h.
  unfold update_database_body, mbind, lift.
  destruct (getitem t R) as [entries|e]; [|discriminate].
  unfold try_except.
  destruct (try_with_parent_row R w rec t n v u r
              (map_fields_to_columns u entries) h)
    as [[e [h' ->]]|[h' ->]].
  - destruct (is_sqlalchemy_error e); simpl; discriminate.
  - simpl. discriminate.
Qed.

Lemma stage_loop_scalar_entry (R : relationship_schema) (rec : propagate)
    (result : row) (mapped : Dict.t (Dict.t value)) (u : pyrecord)
    (entries : table_schema) (c : string) (d : descriptor) :
  In (c, d) entries -> d_ref d = None ->
  forall upt h,
    exists e h', stage_loop R rec result mapped u entries upt h = (Raise e, h').
Proof.
  intros Hin Href.
  induction entries as [|[c' d'] rest IH]; [destruct Hin|].
  intros upt h. rewrite stage_loop_cons.
  destruct Hin as [[= -> ->]|Hin]; [rewrite Href; eauto|].
  destruct (d_ref d') as [ref|]; [|eauto].
  destruct (split3 ref) as [[[rs rt] rc]|e]; [|eauto].
  destruct (is_None (row_get c' result)); [now apply IH|].
  cbv zeta. destruct (Dict.mem (rs ++ "." ++ rt) R); [|now apply IH].
  destruct (rec _ _ _ _ _ h) as [[b|e] h1]; [now apply IH | eauto].
Qed.

(** A call on a table that declares a Scalar Field Descriptor never
    returns [true]. *)
Lemma scalar_entry_prevents_success (R : relationship_schema) (w : World)
    (rec : propagate) (t n : string) (v : value) (u : pyrecord)
    (pr : option row) (h : history) (entries : table_schema) (c : string)
    (d : descriptor) :
  Dict.get t R = Some entries -> In (c, d) entries -> d_ref d = None ->
  fst (update_database_body R w rec t n v u pr h) <> Ret true.
Proof.
  intros Ht Hin Href.
  unfold update_database_body, mbind, lift, getitem. rewrite Ht.
  unfold try_except, update_database_try, propagate_row, mbind, lift, getitem.
  rewrite Ht.
  destruct (split2 t) as [[schema main_table]|e];
    [|destruct (is_sqlalchemy_error e); simpl; discriminate].
  destruct (resolve_row w _ _ _ v pr h) as [[[fq result]|e] h1].
  - destruct (row_is_true result); [|simpl; discriminate].
    destruct result as [result|]; [|simpl; discriminate].
    destruct (stage_loop_scalar_entry R rec result
                (map_fields_to_columns u entries) u entries c d Hin Href
                [] h1) as [e [h2 ->]].
    destruct (is_sqlalchemy_error e); simpl; discriminate.
  - destruct (is_sqlalchemy_error e); simpl; discriminate.
Qed.

(** C2: in the end-to-end scenario the root table declares the scalar
    field [status] before the link [customer_id]; the loop of
    [update_database] reads [ref] of every entry, so the call raises
    [KeyError] at [status] after the fetch of the root row, and no UPDATE
    of [bookings.customers] is executed. *)
Theorem scenario_propagation_raises_KeyError :
  update_database scenario_schema
    (scenario_world (OracleReply 200 amendment_text)) 8
    root_table "id" (VStr "1") [("customer_name", VStr "Ana Lopez")] None []
  = (Raise (KeyError "ref"),
     [EExecute "SELECT * FROM bookings.transfer_services WHERE id = :id_value"
               [("id_value", VStr "1")]]).
Proof. vm_compute. reflexivity. Qed.

(** ** The inbound endpoint *)

Section Endpoint.

Variable isoformat : temporal -> string.
Variable float_of_decimal : Decimal -> pyfloat.
Variable json_loads : string -> option value.
Variable generate_response : pyrecord -> string.
Variable RELATIONSHIPS : relationship_schema.
Variable w : World.
Variable recursion_limit : nat.

Local Abbreviation fetch :=
  (process_message isoformat float_of_decimal RELATIONSHIPS w).
Local Abbreviation handler :=
  (message isoformat float_of_decimal json_loads generate_response
           RELATIONSHIPS w recursion_limit).

(** C4: when the fetch query returns no row, [process_message] yields
    [(None, "No record found.")], which differs from the database-error
    outcome, but [message] answers it with the error status 500: the
    branch that answers 404 is reached only with an empty record. *)
Theorem not_found_is_answered_with_status_500 :
  forall (id_name id_value : string) (user_message : option string)
         (q : string) (h : history),
    str_is_true (Some id_name) = true ->
    str_is_true (Some id_value) = true ->
    construct_query RELATIONSHIPS root_table id_name (VStr id_value) = Ret q ->
    db_execute w h q [("id_value", VStr id_value)] = ExecRow None ->
    fetch root_table id_name (VStr id_value) h
      = (Ret (None, Some "No record found."),
         log h (EExecute q [("id_value", VStr id_value)]))
    /\ (None : option pyrecord, Some "No record found.")
         <> (None, Some "Database error.")
    /\ handler (Request user_message (Some id_name) (Some id_value)) h
      = (Ret ("No record found.", 500%Z),
         log (log h (EExecute q [("id_value", VStr id_value)])) EClose).
Proof.
  intros id_name id_value user_message q h Hn Hv Hq Hdb.
  assert (Hfetch :
    fetch root_table id_name (VStr id_value) h
      = (Ret (None, Some "No record found."),
         log h (EExecute q [("id_value", VStr id_value)]))).
  { unfold process_message. run. rewrite Hq, Hdb. reflexivity. }
  split; [exact Hfetch|]. split; [discriminate|].
  unfold message. cbn [req_id_name req_id_value req_message].
  rewrite Hn, Hv. cbn [negb orb unwrap_str].
  unfold mbind at 1. rewrite Hfetch. reflexivity.
Qed.

Lemma process_message_history (table id_name : string) (id_value : value)
    (h : history) :
  (exists e, construct_query RELATIONSHIPS table id_name id_value = Raise e
             /\ fetch table id_name id_value h = (Raise e, h))
  \/ (exists q r,
        construct_query RELATIONSHIPS table id_name id_value = Ret q
        /\ fetch table id_name id_value h
           = (r, log h (EExecute q [("id_value", id_value)]))).
Proof.
  unfold process_message, mbind, lift.
  destruct (construct_query RELATIONSHIPS table id_name id_value) as [q|e];
    [right | left; eauto].
  exists q. unfold try_except, mbind, execute, mret, lift.
  destruct (db_execute w h q [("id_value", id_value)]) as [|result];
    [simpl; eauto|].
  destruct (row_is_true result); [|eauto].
  destruct result as [result|]; [|eauto].
  destruct (getitem table RELATIONSHIPS) as [relationships|e].
  - destruct (materialize isoformat float_of_decimal result relationships [])
      as [r|e]; [eauto|].
    destruct (is_sqlalchemy_error e); eauto.
  - destruct (is_sqlalchemy_error e); eauto.
Qed.

(** C9: an oracle answer that decodes to a JSON value other than an
    object is classified as an error by the adapter; the handler then
    answers with status 500 and performs nothing but the close of the
    session: the events of the request are the fetch, the call of the
    oracle, which carries the record as fetched, and the close. *)
Theorem non_object_answer_is_an_error_without_write :
  forall (id_name id_value : string) (user_message : option string)
         (q : string) (current_record : pyrecord) (h : history)
         (body : string) (answer : value),
    str_is_true (Some id_name) = true ->
    str_is_true (Some id_value) = true ->
    fetch root_table id_name (VStr id_value) h
      = (Ret (Some current_record, None),
         log h (EExecute q [("id_value", VStr id_value)])) ->
    record_is_true (Some current_record) = true ->
    oracle_post w (log h (EExecute q [("id_value", VStr id_value)]))
                current_record user_message
      = OracleReply 200 body ->
    json_loads body = Some answer ->
    (forall d, answer <> VDict d) ->
    map_corrections_using_gpt json_loads w current_record user_message
        (log h (EExecute q [("id_value", VStr id_value)]))
      = (Ret (None, Some "Received non-JSON object"),
         log (log h (EExecute q [("id_value", VStr id_value)]))
             (EPost current_record user_message))
    /\ handler (Request user_message (Some id_name) (Some id_value)) h
       = (Ret ("Failed to process the corrections. Please try again.", 500%Z),
          (h ++ [EExecute q [("id_value", VStr id_value)];
                 EPost current_record user_message;
                 EClose])%list).
Proof.
  intros id_name id_value user_message q current_record h body answer
         Hn Hv Hfetch Hrec Hpost Hjson Hobj.
  assert (Hmap :
    map_corrections_using_gpt json_loads w current_record user_message
        (log h (EExecute q [("id_value", VStr id_value)]))
      = (Ret (None, Some "Received non-JSON object"),
         log (log h (EExecute q [("id_value", VStr id_value)]))
             (EPost current_record user_message))).
  { unfold map_corrections_using_gpt. rewrite Hpost. simpl. rewrite Hjson.
    destruct answer; try reflexivity. now destruct (Hobj d). }
  split; [exact Hmap|].
  unfold message. cbn [req_id_name req_id_value req_message].
  rewrite Hn, Hv. cbn [negb orb unwrap_str].
  unfold mbind at 1. rewrite Hfetch. cbn [str_is_true].
  rewrite Hrec. cbn [negb unwrap_record].
  unfold mbind at 1. rewrite Hmap. cbn [record_is_true str_is_true].
  unfold mbind, close, mret, log. now rewrite <- !app_assoc.
Qed.

Lemma root_propagation_starts_with_fetch (depth : nat) (id_name : string)
    (id_value : value) (updated_record : pyrecord) (h : history) :
  exists new,
    snd (update_database_rec RELATIONSHIPS w depth root_table id_name
           id_value updated_record None h) = (h ++ new)%list
    /\ (new = []
        \/ exists rest,
             new = EExecute
                     (fetch_text "bookings" "transfer_services"
                                 (last_component id_name))
                     [("id_value", id_value)] :: rest).
Proof.
  destruct depth as [|depth]; simpl.
  { exists []. split; [now rewrite app_nil_r | now left]. }
  unfold update_database_body, mbind at 1, lift at 1, getitem.
  destruct (Dict.get root_table RELATIONSHIPS) as [entries|] eqn:Ht.
  2: { exists []. split; [now rewrite app_nil_r | now left]. }
  set (fetch_event :=
         EExecute (fetch_text "bookings" "transfer_services"
                              (last_component id_name))
                  [("id_value", id_value)]).
  assert (Hext : forall r,
    extends_with (fun _ => True) (log h fetch_event)
      (snd (try_except
              (propagate_row RELATIONSHIPS w
                 (update_database_rec RELATIONSHIPS w depth) root_table
                 id_value updated_record
                 (map_fields_to_columns updated_record entries)
                 (Some (fetch_text "bookings" "transfer_services"
                                   (last_component id_name))) r)
              (mbind (rollback) (fun _ => mret false))
              (log h fetch_event)))).
  { intros r. apply try_except_extends.
    - eapply extends_weaken with
        (P := propagation_event RELATIONSHIPS
                (Some (last_component id_name))); [auto|].
      apply propagate_row_extends; [|exact Ht|].
      + intros t n v u r' h'.
        exact (update_database_rec_extends RELATIONSHIPS w depth
                 t n v u (Some r') h').
      + intros q' [= <-].
        eapply fetch_text_from_schema; [exact Ht | reflexivity].
    - intros h1. apply mbind_extends; [now apply extends_log|].
      intros _ h2 _ _. apply extends_refl. }
  unfold try_except, update_database_try, mbind at 1, lift at 1.
  change (split2 root_table) with (Ret ("bookings", "transfer_services")).
  cbv iota beta. unfold resolve_row, mbind at 1 2, execute, mret at 1.
  fold fetch_event.
  destruct (db_execute w h _ _) as [|result].
  - cbn. exists [fetch_event; ERollback]. split; [|right; eauto].
    unfold log. now rewrite <- app_assoc.
  - specialize (Hext result). unfold try_except in Hext.
    destruct Hext as [new [Hnew _]].
    exists (fetch_event :: new). split; [|right; eauto].
    unfold log in Hnew. rewrite <- app_assoc in Hnew. exact Hnew.
Qed.

(** C10: whatever the request holds, the first statement the handler
    executes is the query constructed for [bookings.transfer_services],
    and the first statement executed after the call of the oracle is the
    root fetch of the propagation on [bookings.transfer_services]. *)
Theorem root_table_is_fixed :
  forall (req : request) (h : history),
    exists new,
      snd (handler req h) = (h ++ new)%list
      /\ (forall sql,
            first_statement new = Some sql ->
            construct_query RELATIONSHIPS "bookings.transfer_services"
              (unwrap_str (req_id_name req))
              (VStr (unwrap_str (req_id_value req))) = Ret sql)
      /\ (forall sql,
            first_statement (after_post new) = Some sql ->
            sql = "SELECT * FROM bookings.transfer_services WHERE "
                    ++ last_component (unwrap_str (req_id_name req))
                    ++ " = :id_value").
Proof.
  intros [user_message id_name id_value] h. unfold message.
  cbn [req_id_name req_id_value req_message].
  destruct (negb (str_is_true id_name) || negb (str_is_true id_value)).
  { exists []. unfold mret. simpl. rewrite app_nil_r.
    repeat split; discriminate. }
  unfold mbind at 1.
  destruct (process_message_history root_table (unwrap_str id_name)
              (VStr (unwrap_str id_value)) h)
    as [[e [Hq ->]]|[q [r [Hq ->]]]].
  { exists []. simpl. rewrite app_nil_r. repeat split; discriminate. }
  set (fetch_event := EExecute q [("id_value", VStr (unwrap_str id_value))]).
  destruct r as [[current_record error]|e].
  2: { exists [fetch_event]. repeat split.
       - intros sql [= <-]. exact Hq.
       - discriminate. }
  destruct (str_is_true error).
  { exists [fetch_event; EClose]. unfold mbind, close, mret, log. simpl.
    rewrite <- app_assoc. repeat split.
    - intros sql [= <-]. exact Hq.
    - discriminate. }
  destruct (negb (record_is_true current_record)).
  { exists [fetch_event; EClose]. unfold mbind, close, mret, log. simpl.
    rewrite <- app_assoc. repeat split.
    - intros sql [= <-]. exact Hq.
    - discriminate. }
  unfold mbind at 1.
  set (post_event := EPost (unwrap_record current_record) user_message).
  assert (Hmap : exists ce,
    map_corrections_using_gpt json_loads w (unwrap_record current_record)
      user_message (log h fetch_event)
    = (Ret ce, log (log h fetch_event) post_event)).
  { unfold map_corrections_using_gpt.
    destruct (Z.eqb _ 200); [|eauto].
    destruct (json_loads _) as [[]|]; eauto. }
  destruct Hmap as [[corrections error'] ->].
  destruct (record_is_true corrections).
  - unfold mbind at 1, update_database.
    destruct (root_propagation_starts_with_fetch recursion_limit
                (unwrap_str id_name) (VStr (unwrap_str id_value))
                (unwrap_record corrections)
                (log (log h fetch_event) post_event))
      as [new [Hnew Hshape]].
    destruct (update_database_rec _ _ _ _ _ _ _ _ _) as [[success|e] h3];
      simpl in Hnew; subst h3.
    + exists (fetch_event :: post_event :: new ++ [EClose])%list.
      split; [|split].
      * unfold mbind, close, log. destruct success; unfold mret; simpl;
          rewrite <- !app_assoc; reflexivity.
      * intros sql [= <-]. exact Hq.
      * cbn [after_post fetch_event post_event].
        destruct Hshape as [->|[rest ->]]; [discriminate|].
        now intros sql [= <-].
    + exists (fetch_event :: post_event :: new)%list. split; [|split].
      * simpl. unfold log. rewrite <- !app_assoc. reflexivity.
      * intros sql [= <-]. exact Hq.
      * cbn [after_post fetch_event post_event].
        destruct Hshape as [->|[rest ->]]; [discriminate|].
        now intros sql [= <-].
  - exists [fetch_event; post_event; EClose]. split; [|split].
    + unfold mbind, close, log. destruct (str_is_true error'); unfold mret;
        simpl; rewrite <- !app_assoc; reflexivity.
    + intros sql [= <-]. exact Hq.
    + discriminate.
Qed.

End Endpoint.


Lemma not_found_is_answered_with_status_500_witness :
  message py_isoformat float_of_integral_decimal demo_json_loads
          demo_generate_response scenario_schema empty_world 8
          scenario_request []
  = (Ret ("No record found.", 500%Z),
     [EExecute
        ("SELECT bookings.transfer_services.status AS " ++ quoted "status"
           ++ ", customers_alias_1.name AS " ++ quoted "customer_name"
           ++ " FROM bookings.transfer_services"
           ++ " LEFT JOIN bookings.customers AS customers_alias_1"
           ++ " ON bookings.transfer_services.customer_id"
           ++ " = customers_alias_1.id"
           ++ " WHERE bookings.transfer_services.id = :id_value")
        [("id_value", VStr "1")];
      EClose]).
Proof.
  exact (proj2 (proj2
    (not_found_is_answered_with_status_500
       py_isoformat float_of_integral_decimal demo_json_loads
       demo_generate_response scenario_schema empty_world 8
       "id" "1" (Some "the customer is Ana Lopez") _ []
       eq_refl eq_refl eq_refl eq_refl))).
Defined.

Lemma non_object_answer_is_an_error_without_write_witness :
  message py_isoformat float_of_integral_decimal demo_json_loads
          demo_generate_response scenario_schema
          (scenario_world (OracleReply 200 array_text)) 8
          scenario_request []
  = (Ret ("Failed to process the corrections. Please try again.", 500%Z),
     [EExecute
        ("SELECT bookings.transfer_services.status AS " ++ quoted "status"
           ++ ", customers_alias_1.name AS " ++ quoted "customer_name"
           ++ " FROM bookings.transfer_services"
           ++ " LEFT JOIN bookings.customers AS customers_alias_1"
           ++ " ON bookings.transfer_services.customer_id"
           ++ " = customers_alias_1.id"
           ++ " WHERE bookings.transfer_services.id = :id_value")
        [("id_value", VStr "1")];
      EPost [("status", VStr "pending"); ("customer_name", VStr "Ana")]
            (Some "the customer is Ana Lopez");
      EClose]).
Proof.
  refine (proj2
    (non_object_answer_is_an_error_without_write
       py_isoformat float_of_integral_decimal demo_json_loads
       demo_generate_response scenario_schema
       (scenario_world (OracleReply 200 array_text)) 8
       "id" "1" (Some "the customer is Ana Lopez") _
       [("status", VStr "pending"); ("customer_name", VStr "Ana")] []
       array_text (VList [VStr "Ana Lopez"])
       eq_refl eq_refl eq_refl eq_refl eq_refl eq_refl _)).
  intros d. discriminate.
Defined.

(** ** Query Constructor *)

Section QueryConstructor.

Variables schema table_name : string.



End QueryConstructor.



(** ** Record Materializer and Field Mapper *)

Lemma existsb_eqb_In (a : string) (l : list string) :
  existsb (String.eqb a) l = true <-> In a l.
Proof.
  rewrite existsb_exists. split.
  - intros [x [Hx E]]. apply String.eqb_eq in E. now subst.
  - intros H. exists a. split; [exact H | apply String.eqb_refl].
Qed.

Lemma fresh_NoDup (l : list string) :
  NoDup l -> forall seen, (forall x, In x l -> ~ In x seen) -> fresh seen l = l.
Proof.
  induction 1 as [|a l Ha Hl IH]; intros seen Hseen; simpl; [reflexivity|].
  destruct (existsb (String.eqb a) seen) eqn:E.
  - apply existsb_eqb_In in E. destruct (Hseen a (or_introl eq_refl) E).
  - f_equal. apply IH. intros x Hx Hin. apply in_app_or in Hin.
    destruct Hin as [Hin|[<-|[]]].
    + exact (Hseen x (or_intror Hx) Hin).
    + exact (Ha Hx).
Qed.

Section Materializer.

Variable isoformat : temporal -> string.
Variable float_of_decimal : Decimal -> pyfloat.
Variable result : row.

Local Abbreviation serialize' := (serialize isoformat float_of_decimal).

Local Abbreviation write :=
  (write_alias isoformat float_of_decimal result).

Lemma write_alias_keys (l : list string) :
  forall acc,
    Dict.keys (fold_left write l acc)
    = (Dict.keys acc ++ fresh (Dict.keys acc) l)%list.
Proof.
  induction l as [|a l IH]; intros acc; simpl.
  - now rewrite app_nil_r.
  - rewrite IH. unfold write_alias. rewrite dict_keys_set.
    destruct (Dict.mem a acc) eqn:Hmem.
    + apply dict_mem_keys in Hmem. apply existsb_eqb_In in Hmem.
      now rewrite Hmem.
    + assert (E : existsb (String.eqb a) (Dict.keys acc) = false).
      { destruct (existsb (String.eqb a) (Dict.keys acc)) eqn:E;
          [|reflexivity].
        apply existsb_eqb_In in E. apply dict_mem_keys in E. congruence. }
      rewrite E. now rewrite <- app_assoc.
Qed.

Lemma write_alias_preserves (a : string) (l : list string) :
  forall acc,
    Dict.get a acc = Some (serialize' (row_get a result)) ->
    Dict.get a (fold_left write l acc)
    = Some (serialize' (row_get a result)).
Proof.
  induction l as [|b l IH]; intros acc H; simpl; [exact H|].
  apply IH. unfold write_alias.
  destruct (String.eqb_spec a b) as [->|Hne].
  - apply dict_get_set_same.
  - now rewrite dict_get_set_other.
Qed.

Lemma write_alias_get (a : string) (l : list string) :
  In a l ->
  forall acc,
    Dict.get a (fold_left write l acc)
    = Some (serialize' (row_get a result)).
Proof.
  induction l as [|b l IH]; intros Hin acc; [destruct Hin|]. simpl.
  destruct Hin as [->|Hin]; [|now apply IH].
  apply write_alias_preserves. unfold write_alias.
  apply dict_get_set_same.
Qed.

Lemma fields_loop_fold (fields : Dict.t string) :
  forall acc,
    (forall f, In f fields -> Dict.mem (snd f) result = true) ->
    fields_loop isoformat float_of_decimal result fields acc
    = Ret (fold_left write (map snd fields) acc).
Proof.
  induction fields as [|[f a] fields IH]; intros acc H; simpl;
    [reflexivity|].
  pose proof (H (f, a) (or_introl eq_refl)) as Ha. simpl in Ha.
  unfold row_getitem, rbind, Dict.mem in *.
  unfold write_alias at 2. unfold row_get.
  destruct (Dict.get a result) as [v|]; [|discriminate].
  apply IH. intros f' Hf'. apply H. now right.
Qed.

Lemma fields_loop_Ret (fields : Dict.t string) :
  forall acc r,
    fields_loop isoformat float_of_decimal result fields acc = Ret r ->
    forall f, In f fields -> Dict.mem (snd f) result = true.
Proof.
  induction fields as [|[f a] fields IH]; intros acc r H f' Hf';
    [destruct Hf'|].
  simpl in H. unfold row_getitem, rbind in H.
  destruct (Dict.get a result) as [v|] eqn:Hv; [|discriminate].
  destruct Hf' as [<-|Hf'].
  - unfold Dict.mem. simpl. now rewrite Hv.
  - eapply IH; eassumption.
Qed.

Lemma direct_step_write (d : descriptor) (acc : pyrecord) :
  direct_step isoformat float_of_decimal result d acc
  = fold_left write
      (match d_alias d with
       | Some a => if Dict.mem a result then [a] else []
       | None => []
       end) acc.
Proof.
  unfold direct_step, Dict.mem, write_alias, row_get.
  destruct (d_alias d) as [a|]; [|reflexivity].
  destruct (Dict.get a result) eqn:E; simpl; rewrite ?E; reflexivity.
Qed.

Lemma materialize_fold (entries : table_schema) :
  forall acc,
    (forall a, In a (field_aliases entries) -> Dict.mem a result = true) ->
    materialize isoformat float_of_decimal result entries acc
    = Ret (fold_left write (declared_aliases result entries) acc).
Proof.
  induction entries as [|[c d] entries IH]; intros acc H; [reflexivity|].
  cbn [materialize declared_aliases flat_map snd].
  fold (declared_aliases result entries).
  unfold entry_aliases. rewrite !fold_left_app, direct_step_write.
  assert (Hrest : forall a, In a (field_aliases entries) ->
                            Dict.mem a result = true).
  { intros a Ha. apply H. unfold field_aliases. simpl.
    apply in_or_app. now right. }
  destruct (d_fields d) as [fields|] eqn:Hfields.
  - rewrite fields_loop_fold.
    + unfold rbind. now apply IH.
    + intros f Hf. apply H. unfold field_aliases. simpl. rewrite Hfields.
      apply in_or_app. left. now apply in_map.
  - simpl. now apply IH.
Qed.

Lemma materialize_Ret (entries : table_schema) :
  forall acc r,
    materialize isoformat float_of_decimal result entries acc = Ret r ->
    forall a, In a (field_aliases entries) -> Dict.mem a result = true.
Proof.
  induction entries as [|[c d] entries IH]; intros acc r H a Ha;
    [destruct Ha|].
  cbn [materialize] in H. unfold field_aliases in Ha. simpl in Ha.
  apply in_app_or in Ha.
  destruct (d_fields d) as [fields|] eqn:Hfields.
  - unfold rbind in H.
    destruct (fields_loop isoformat float_of_decimal result fields _)
      as [r1|e] eqn:Hloop; [|discriminate].
    destruct Ha as [Ha|Ha]; [|eapply IH; eassumption].
    apply in_map_iff in Ha. destruct Ha as [f [<- Hf]].
    eapply fields_loop_Ret; eassumption.
  - destruct Ha as [[]|Ha]. eapply IH; eassumption.
Qed.

End Materializer.

Lemma same_lookups_same_record (isoformat : temporal -> string)
    (float_of_decimal : Decimal -> pyfloat) (result result' : row) :
  (forall a, Dict.get a result' = Dict.get a result) ->
  forall entries acc,
    fold_left (write_alias isoformat float_of_decimal result')
              (declared_aliases result' entries) acc
    = fold_left (write_alias isoformat float_of_decimal result)
                (declared_aliases result entries) acc.
Proof.
  intros Hsame entries.
  assert (Hdecl : declared_aliases result' entries
                  = declared_aliases result entries).
  { unfold declared_aliases, entry_aliases, Dict.mem.
    induction entries as [|[c d] entries IH]; simpl; [reflexivity|].
    rewrite IH. destruct (d_alias d) as [a|]; [|reflexivity].
    now rewrite Hsame. }
  rewrite Hdecl. generalize (declared_aliases result entries).
  intros l. induction l as [|a l IH]; intros acc; simpl; [reflexivity|].
  rewrite IH. unfold write_alias, row_get. now rewrite Hsame.
Qed.

Lemma serialize_other (isoformat : temporal -> string)
    (float_of_decimal : Decimal -> pyfloat) (v : value) :
  is_temporal_or_decimal v = false ->
  serialize isoformat float_of_decimal v = v.
Proof. destruct v; simpl; (reflexivity || discriminate). Qed.

(** C7: a non-empty row that holds every field alias of the table is
    materialized into a Record whose keys are the declared aliases at
    their first occurrence, in declaration order; a row with the same
    columns in another order gives the same Record; every value is the
    serialized value of the row: temporal values become the text of
    [isoformat], [Decimal] values become floats, [None] and every other
    value are unchanged. *)
Theorem record_follows_declaration_order :
  forall (isoformat : temporal -> string)
         (float_of_decimal : Decimal -> pyfloat)
         (R : relationship_schema) (w : World)
         (table id_name : string) (id_value : value) (q : string)
         (entries : table_schema) (result : row) (h : history),
    construct_query R table id_name id_value = Ret q ->
    Dict.get table R = Some entries ->
    db_execute w h q [("id_value", id_value)] = ExecRow (Some result) ->
    Dict.is_empty result = false ->
    (forall a, In a (field_aliases entries) -> Dict.mem a result = true) ->
    exists record,
      process_message isoformat float_of_decimal R w table id_name id_value h
      = (Ret (Some record, None),
         log h (EExecute q [("id_value", id_value)]))
      /\ Dict.keys record = first_occurrences (declared_aliases result entries)
      /\ (NoDup (declared_aliases result entries) ->
          Dict.keys record = declared_aliases result entries)
      /\ (forall a, In a (declared_aliases result entries) ->
            Dict.get a record
            = Some (serialize isoformat float_of_decimal (row_get a result)))
      /\ (forall result',
            (forall a, Dict.get a result' = Dict.get a result) ->
            materialize isoformat float_of_decimal result' entries []
            = Ret record)
      /\ (forall t, serialize isoformat float_of_decimal (VTemporal t)
                    = VStr (isoformat t))
      /\ (forall d, serialize isoformat float_of_decimal (VDecimal d)
                    = VFloat (float_of_decimal d))
      /\ serialize isoformat float_of_decimal VNone = VNone
      /\ (forall v, is_temporal_or_decimal v = false ->
                    serialize isoformat float_of_decimal v = v).
Proof.
  intros isoformat float_of_decimal R w table id_name id_value q entries
         result h Hq Hget Hdb Hne Hfields.
  exists (fold_left (write_alias isoformat float_of_decimal result)
                    (declared_aliases result entries) []).
  split; [|split; [|split; [|split; [|split; [|split; [|split; [|split]]]]]]].
  - unfold process_message, mbind, lift, try_except, execute, getitem.
    rewrite Hq, Hdb, Hget.
    destruct result as [|kv result]; [discriminate|].
    cbn [row_is_true]. rewrite materialize_fold by exact Hfields.
    reflexivity.
  - now rewrite write_alias_keys.
  - intros Hnd. rewrite write_alias_keys. simpl.
    apply fresh_NoDup; [exact Hnd | intros x _ []].
  - intros a Ha. now apply write_alias_get.
  - intros result' Hsame.
    rewrite materialize_fold.
    + now rewrite (same_lookups_same_record _ _ _ _ Hsame).
    + intros a Ha. unfold Dict.mem. rewrite Hsame. now apply Hfields.
  - reflexivity.
  - reflexivity.
  - reflexivity.
  - apply serialize_other.
Qed.

Lemma record_follows_declaration_order_witness :
  exists record,
    process_message py_isoformat float_of_integral_decimal scenario_schema
      (scenario_world (OracleReply 200 "{}")) root_table "id" (VStr "1") []
    = (Ret (Some record, None),
       [EExecute
          ("SELECT bookings.transfer_services.status AS " ++ quoted "status"
             ++ ", customers_alias_1.name AS " ++ quoted "customer_name"
             ++ " FROM bookings.transfer_services"
             ++ " LEFT JOIN bookings.customers AS customers_alias_1"
             ++ " ON bookings.transfer_services.customer_id"
             ++ " = customers_alias_1.id"
             ++ " WHERE bookings.transfer_services.id = :id_value")
          [("id_value", VStr "1")]])
    /\ Dict.keys record = ["status"; "customer_name"].
Proof.
  destruct (record_follows_declaration_order
              py_isoformat float_of_integral_decimal scenario_schema
              (scenario_world (OracleReply 200 "{}")) root_table "id"
              (VStr "1") _
              [("status", scalar "status");
               ("customer_id",
                link "bookings.customers.id" [("name", "customer_name")])]
              scenario_joined_row [] eq_refl eq_refl eq_refl eq_refl)
    as [record [Hrun [Hkeys _]]].
  - simpl. intros a [<-|[]]. reflexivity.
  - exists record. split; [exact Hrun | exact Hkeys].
Defined.

(** ** The round trip *)








(** ** Best-effort propagation *)

Lemma stage_loop_returns (R : relationship_schema) (rec : propagate)
    (result : row) (mapped : Dict.t (Dict.t value)) (u : pyrecord)
    (entries : table_schema) :
  nested_calls_return R rec result u entries ->
  forall upt0 upt,
    staged_updates mapped result entries upt0 = Ret upt ->
    forall h, exists h1,
      stage_loop R rec result mapped u entries upt0 h = (Ret upt, h1).
Proof.
  induction entries as [|[column d] rest IH]; intros Hrec upt0 upt Hst h.
  - simpl in Hst. inversion Hst; subst. exists h. reflexivity.
  - assert (Hrest : nested_calls_return R rec result u rest).
    { intros c' d' ref rs rt rc h' Hin. apply Hrec. now right. }
    rewrite stage_loop_cons. cbn [staged_updates] in Hst.
    unfold rbind, require in Hst.
    destruct (d_ref d) as [ref|] eqn:Href; [|discriminate].
    destruct (split3 ref) as [[[rs rt] rc]|e] eqn:Hsplit; [|discriminate].
    destruct (is_None (row_get column result)) eqn:Hnone;
      [now apply IH|].
    cbv zeta.
    destruct (Dict.mem (rs ++ "." ++ rt) R) eqn:Hmem; [|now apply IH].
    destruct (Hrec column d ref rs rt rc h (or_introl eq_refl)
                Href Hsplit Hnone Hmem) as [b [h' ->]].
    now apply IH.
Qed.

Lemma execute_update_ok (w : World) (name : string) (u : update_info)
    (h : history) :
  (forall e, In e (update_event name u) -> succeeds w e) ->
  execute_update w name u h = (Ret tt, (h ++ update_event name u)%list).
Proof.
  unfold execute_update, update_event.
  destruct (Dict.is_empty (columns u)); intros H.
  - unfold mret. now rewrite app_nil_r.
  - specialize (H _ (or_introl eq_refl) h). simpl in H.
    unfold mbind, execute, mret, log.
    now destruct (db_execute w h _ _).
Qed.

Lemma for_each_ok {A} (f : A -> M unit) (g : A -> history) (l : list A) :
  (forall x, In x l -> forall h, f x h = (Ret tt, (h ++ g x)%list)) ->
  forall h, for_each f l h = (Ret tt, (h ++ flat_map g l)%list).
Proof.
  induction l as [|x l IH]; intros H h; simpl.
  - unfold mret. now rewrite app_nil_r.
  - unfold mbind. rewrite (H x (or_introl eq_refl) h).
    rewrite IH by (intros y Hy; apply H; now right).
    now rewrite <- app_assoc.
Qed.

Lemma execute_updates_ok (w : World) (upt : updates_table) (h : history) :
  (forall e, In e (update_events upt) -> succeeds w e) ->
  execute_updates w upt h = (Ret tt, (h ++ update_events upt)%list).
Proof.
  intros H. unfold execute_updates, update_events.
  apply for_each_ok. intros [name us] Hin h1. simpl.
  apply for_each_ok. intros u Hu h2. apply execute_update_ok.
  intros e He. apply H. unfold update_events.
  apply in_flat_map. exists (name, us). split; [exact Hin|]. simpl.
  apply in_flat_map. exists u. split; [exact Hu | exact He].
Qed.



(** * Further properties *)

(** ** Splitting and joining names *)

Lemma split_cons (c : ascii) (s : string) :
  exists h t, split c s = h :: t.
Proof.
  destruct s as [|x r]; simpl; [eauto|].
  destruct (Ascii.eqb x c); [eauto|].
  destruct (split c r); eauto.
Qed.

Lemma concat_split (c : ascii) (s : string) :
  String.concat (String c EmptyString) (split c s) = s.
Proof.
  induction s as [|x r IH]; [reflexivity|]. simpl.
  destruct (Ascii.eqb_spec x c) as [->|Hne].
  - destruct (split_cons c r) as [h [t E]]. rewrite E.
    change (String.concat (String c EmptyString) (EmptyString :: h :: t))
      with (String c (String.concat (String c EmptyString) (h :: t))).
    now rewrite <- E, IH.
  - destruct (split c r) as [|h [|y t]].
    + now rewrite <- IH.
    + simpl in *. now rewrite IH.
    + change (String.concat (String c EmptyString) (String x h :: y :: t))
        with (String x (String.concat (String c EmptyString) (h :: y :: t))).
      now rewrite IH.
Qed.

Lemma split_without_char (c : ascii) (s : string) :
  has_char c s = false -> split c s = [s].
Proof.
  induction s as [|x r IH]; [reflexivity|]. simpl.
  destruct (Ascii.eqb x c); [discriminate|]. simpl.
  intros H. now rewrite (IH H).
Qed.

Lemma split_with_char (c : ascii) (s : string) :
  has_char c s = true -> exists h y t, split c s = h :: y :: t.
Proof.
  induction s as [|x r IH]; [discriminate|]. simpl.
  destruct (Ascii.eqb x c); simpl.
  - intros _. destruct (split_cons c r) as [h [t ->]]. eauto.
  - intros H. destruct (IH H) as [h [y [t ->]]]. eauto.
Qed.

Lemma has_char_app (c : ascii) (a b : string) :
  has_char c (a ++ b) = has_char c a || has_char c b.
Proof.
  induction a as [|x a IH]; [reflexivity|]. simpl.
  now rewrite IH, orb_assoc.
Qed.

Lemma last_split_app (c : ascii) (a b d : string) :
  last (split c (a ++ String c b)) d = last (split c b) d.
Proof.
  induction a as [|x a IH]; simpl.
  - rewrite Ascii.eqb_refl. now destruct (split_cons c b) as [h [t ->]].
  - destruct (Ascii.eqb x c).
    + rewrite <- IH.
      now destruct (split_cons c (a ++ String c b)) as [h [t ->]].
    + rewrite <- IH.
      destruct (split_with_char c (a ++ String c b)) as [h [y [t ->]]];
        [|reflexivity].
      rewrite has_char_app. simpl. rewrite Ascii.eqb_refl.
      now rewrite orb_true_r.
Qed.

Lemma last_split_without_char (c : ascii) (s : string) :
  has_char c (last (split c s) EmptyString) = false.
Proof.
  induction s as [|x r IH]; [reflexivity|]. simpl.
  destruct (Ascii.eqb x c) eqn:E.
  - destruct (split_cons c r) as [h [t Hs]]. rewrite Hs in *. exact IH.
  - destruct (split c r) as [|h [|y t]]; simpl in *.
    + now rewrite E.
    + now rewrite E, IH.
    + exact IH.
Qed.

Lemma last_component_qualified (prefix column : string) :
  has_char dot column = false ->
  last_component (prefix ++ "." ++ column) = column.
Proof.
  intros H. unfold last_component.
  change (prefix ++ "." ++ column) with (prefix ++ String dot column).
  now rewrite last_split_app, (split_without_char _ _ H).
Qed.

Lemma split2_join (table schema table_name : string) :
  split2 table = Ret (schema, table_name) ->
  schema ++ "." ++ table_name = table.
Proof.
  intros H. apply split2_parts in H.
  pose proof (concat_split dot table) as E. rewrite H in E. exact E.
Qed.

(** ** Query Constructor: names, failures, aliases *)

(** X1: a statement that [construct_query] returns selects from the
    table it was given and compares, in its WHERE clause, a column of
    that table whose name has no dot with the one placeholder. *)
Theorem construct_query_names_the_table_passed :
  forall (R : relationship_schema) (table id_name : string) (id_value : value)
         (q : string),
    construct_query R table id_name id_value = Ret q ->
    exists columns joins,
      q = "SELECT " ++ String.concat ", " columns ++ " FROM " ++ table
            ++ joins ++ " WHERE " ++ table ++ "."
            ++ last_component id_name ++ " = :id_value"
      /\ has_char dot (last_component id_name) = false.
Proof.
  intros R table id_name id_value q. unfold construct_query, rbind.
  destruct (split2 table) as [[schema table_name]|e] eqn:Hsplit;
    [|discriminate].
  apply split2_join in Hsplit.
  destruct (getitem table R) as [relationships|e]; [|discriminate].
  destruct (select_loop schema table_name relationships 1 [])
    as [columns|e]; [|discriminate].
  destruct (join_loop schema table_name relationships 1 [])
    as [[|j joins]|e]; [| |discriminate]; intros [= <-].
  - exists columns, EmptyString. split; [|apply last_split_without_char].
    unfold where_clause. rewrite <- Hsplit.
    repeat (progress (cbn; rewrite ?string_append_assoc)). reflexivity.
  - exists columns, (" " ++ String.concat " " (j :: joins)).
    split; [|apply last_split_without_char].
    unfold where_clause. rewrite <- Hsplit.
    repeat (progress (cbn [append]; rewrite ?string_append_assoc)).
    reflexivity.
Qed.

Lemma construct_query_names_the_table_passed_witness :
  exists columns joins,
    "SELECT bookings.transfer_services.status AS " ++ quoted "status"
      ++ ", customers_alias_1.name AS " ++ quoted "customer_name"
      ++ " FROM bookings.transfer_services"
      ++ " LEFT JOIN bookings.customers AS customers_alias_1"
      ++ " ON bookings.transfer_services.customer_id"
      ++ " = customers_alias_1.id"
      ++ " WHERE bookings.transfer_services.id = :id_value"
    = "SELECT " ++ String.concat ", " columns
        ++ " FROM " ++ "bookings.transfer_services"
        ++ joins ++ " WHERE " ++ "bookings.transfer_services" ++ "."
        ++ last_component "transfer_services.id" ++ " = :id_value"
    /\ has_char dot (last_component "transfer_services.id") = false.
Proof.
  exact (construct_query_names_the_table_passed scenario_schema root_table
           "transfer_services.id" (VStr "1") _ eq_refl).
Defined.

(** X2: a lookup name qualified by any prefix gives the statement of its
    bare column. *)
Theorem qualified_lookup_name_is_reduced_to_its_column :
  forall (R : relationship_schema) (table prefix column : string)
         (id_value : value),
    has_char dot column = false ->
    construct_query R table (prefix ++ "." ++ column) id_value
    = construct_query R table column id_value.
Proof.
  intros R table prefix column id_value H. unfold construct_query.
  rewrite (last_component_qualified prefix column H).
  unfold last_component. now rewrite (split_without_char _ _ H).
Qed.

Lemma qualified_lookup_name_is_reduced_to_its_column_witness :
  construct_query scenario_schema root_table
                  ("bookings.transfer_services" ++ "." ++ "id") (VStr "1")
  = construct_query scenario_schema root_table "id" (VStr "1").
Proof.
  exact (qualified_lookup_name_is_reduced_to_its_column scenario_schema
           root_table "bookings.transfer_services" "id" (VStr "1") eq_refl).
Defined.





Lemma digits_without_underscore (d : Decimal.uint) :
  has_char "_"%char (NilEmpty.string_of_uint d) = false.
Proof. induction d; simpl; auto. Qed.

Lemma str_of_nat_inj (n m : nat) : str_of_nat n = str_of_nat m -> n = m.
Proof.
  unfold str_of_nat. intros H. apply Unsigned.to_uint_inj.
  apply (f_equal NilEmpty.uint_of_string) in H.
  rewrite !NilEmpty.usu in H. now inversion H.
Qed.

Lemma ref_alias_counter (ref_table : string) (n : nat) :
  last (split "_"%char (ref_alias_name ref_table n)) EmptyString
  = str_of_nat n.
Proof.
  unfold ref_alias_name.
  replace (ref_table ++ "_alias_" ++ str_of_nat n)
    with ((ref_table ++ "_alias") ++ String "_"%char (str_of_nat n))
    by (now rewrite string_append_assoc).
  rewrite last_split_app, split_without_char; [reflexivity|].
  apply digits_without_underscore.
Qed.

Lemma ref_alias_name_counters (ref_table ref_table' : string) (n n' : nat) :
  n <> n' -> ref_alias_name ref_table n <> ref_alias_name ref_table' n'.
Proof.
  intros Hne H. apply Hne, str_of_nat_inj.
  now rewrite <- (ref_alias_counter ref_table n), H, ref_alias_counter.
Qed.

Lemma join_aliases_counters (entries : table_schema) :
  forall n a,
    In a (join_aliases entries n) ->
    exists ref_table k, n <= k /\ a = ref_alias_name ref_table k.
Proof.
  induction entries as [|[c d] rest IH]; intros n a H; [destruct H|].
  simpl in H. destruct (d_ref d) as [ref|].
  - destruct (split3 ref) as [[[rs rt] rc]|e]; [|destruct H].
    destruct H as [<-|H]; [now exists rt, n|].
    destruct (IH _ _ H) as [rt' [k [Hk ->]]]. exists rt', k.
    split; [now apply Nat.lt_le_incl | reflexivity].
  - exact (IH _ _ H).
Qed.

Lemma join_aliases_NoDup (entries : table_schema) :
  forall n, NoDup (join_aliases entries n).
Proof.
  induction entries as [|[c d] rest IH]; intros n; simpl; [constructor|].
  destruct (d_ref d) as [ref|]; [|apply IH].
  destruct (split3 ref) as [[[rs rt] rc]|e]; [|constructor].
  constructor; [|apply IH].
  intros H. destruct (join_aliases_counters _ _ _ H) as [rt' [k [Hk E]]].
  revert E. apply ref_alias_name_counters.
  intros ->. exact (Nat.nle_succ_diag_l _ Hk).
Qed.

Lemma join_loop_aliases (schema table_name : string)
    (entries : table_schema) :
  forall n acc joins,
    join_loop schema table_name entries n acc = Ret joins ->
    exists new,
      joins = (acc ++ new)%list
      /\ Forall2 joined_as new (join_aliases entries n).
Proof.
  induction entries as [|[c d] rest IH]; intros n acc joins H.
  - inversion H; subst. exists []. split; [now rewrite app_nil_r|constructor].
  - simpl in H. unfold rbind in H. simpl.
    destruct (d_ref d) as [ref|]; [|exact (IH _ _ _ H)].
    destruct (split3 ref) as [[[rs rt] rc]|e]; [|discriminate].
    destruct (IH _ _ _ H) as [new [-> Hnew]].
    exists (join_clause_text rs rt (ref_alias_name rt n)
                             schema table_name c rc :: new).
    split; [now rewrite <- app_assoc|].
    constructor; [|exact Hnew].
    now exists rs, rt, schema, table_name, c, rc.
Qed.

(** X4: the JOIN clauses that [construct_query] builds name their tables
    with pairwise different aliases, one per link in declaration order:
    two links never share a join alias, also when both reference the
    same table, because the alias ends in the running counter. *)
Theorem join_aliases_of_different_links_differ :
  forall (schema table_name : string) (entries : table_schema)
         (joins : list string),
    join_loop schema table_name entries 1 [] = Ret joins ->
    Forall2 joined_as joins (join_aliases entries 1)
    /\ NoDup (join_aliases entries 1).
Proof.
  intros schema table_name entries joins H.
  destruct (join_loop_aliases _ _ _ _ _ _ H) as [new [-> Hnew]].
  split; [exact Hnew | apply join_aliases_NoDup].
Qed.

Lemma join_aliases_of_different_links_differ_witness :
  NoDup ["customers_alias_1"; "customers_alias_2"].
Proof.
  exact (proj2
    (join_aliases_of_different_links_differ
       "bookings" "transfer_services"
       [("sender_id", link "bookings.customers.id" [("name", "sender_name")]);
        ("status", scalar "status");
        ("receiver_id",
         link "bookings.customers.id" [("name", "receiver_name")])]
       _ eq_refl)).
Defined.

Lemma select_loop_labels (schema table_name : string)
    (entries : table_schema) :
  forall n acc columns,
    select_loop schema table_name entries n acc = Ret columns ->
    exists new,
      columns = (acc ++ new)%list
      /\ Forall2 labelled new (selected_aliases entries).
Proof.
  induction entries as [|[c d] rest IH]; intros n acc columns H.
  - inversion H; subst. exists []. split; [now rewrite app_nil_r|constructor].
  - simpl in H. unfold rbind, require in H.
    unfold selected_aliases. simpl. fold (selected_aliases rest).
    destruct (d_ref d) as [ref|].
    + destruct (split3 ref) as [[[rs rt] rc]|e]; [|discriminate].
      destruct (d_fields d) as [fields|]; [|discriminate].
      destruct (IH _ _ _ H) as [new [-> Hnew]].
      exists (map (ref_column_text (ref_alias_name rt n)) fields ++ new)%list.
      split; [now rewrite app_assoc|].
      apply Forall2_app; [|exact Hnew].
      clear. induction fields as [|f fields IHf]; simpl; constructor; auto.
      exists (ref_alias_name rt n ++ "." ++ fst f).
      unfold ref_column_text. now rewrite !string_append_assoc.
    + destruct (d_alias d) as [alias|]; [|discriminate].
      destruct (IH _ _ _ H) as [new [-> Hnew]].
      exists (direct_column_text schema table_name c alias :: new).
      split; [now rewrite <- app_assoc|].
      constructor; [|exact Hnew].
      exists (schema ++ "." ++ table_name ++ "." ++ c).
      unfold direct_column_text. now rewrite !string_append_assoc.
Qed.

(** X5: the SELECT list that [construct_query] builds has one column per
    exposed field, in declaration order, each labelled with the alias of
    its field: the alias of a scalar entry, the aliases of the fields of
    a link. *)
Theorem select_list_is_labelled_with_the_declared_aliases :
  forall (schema table_name : string) (entries : table_schema)
         (columns : list string),
    select_loop schema table_name entries 1 [] = Ret columns ->
    Forall2 labelled columns (selected_aliases entries)
    /\ length columns = length (selected_aliases entries).
Proof.
  intros schema table_name entries columns H.
  destruct (select_loop_labels _ _ _ _ _ _ H) as [new [-> Hnew]].
  split; [exact Hnew | eapply Forall2_length; exact Hnew].
Qed.

Lemma select_list_is_labelled_with_the_declared_aliases_witness :
  Forall2 labelled
    ["bookings.transfer_services.status AS " ++ quoted "status";
     "customers_alias_1.name AS " ++ quoted "customer_name"]
    ["status"; "customer_name"].
Proof.
  exact (proj1
    (select_list_is_labelled_with_the_declared_aliases
       "bookings" "transfer_services"
       [("status", scalar "status");
        ("customer_id",
         link "bookings.customers.id" [("name", "customer_name")])]
       _ eq_refl)).
Defined.

(** ** Record Materializer: outcomes *)

Section Fetch.

Variable isoformat : temporal -> string.
Variable float_of_decimal : Decimal -> pyfloat.
Variable RELATIONSHIPS : relationship_schema.
Variable w : World.

Local Abbreviation fetch :=
  (process_message isoformat float_of_decimal RELATIONSHIPS w).
Local Abbreviation materialize' :=
  (materialize isoformat float_of_decimal).

Lemma fields_loop_Raise (result : row) (fields : Dict.t string) :
  forall acc e,
    fields_loop isoformat float_of_decimal result fields acc = Raise e ->
    exists a, e = NoSuchColumnError a.
Proof.
  induction fields as [|[f a] fields IH]; intros acc e H; [discriminate|].
  simpl in H. unfold rbind, row_getitem in H.
  destruct (Dict.get a result); [eapply IH; exact H|].
  inversion H. eauto.
Qed.

Lemma materialize_Raise (result : row) (entries : table_schema) :
  forall acc e,
    materialize' result entries acc = Raise e ->
    exists a, e = NoSuchColumnError a.
Proof.
  induction entries as [|[c d] entries IH]; intros acc e H; [discriminate|].
  cbn [materialize] in H.
  destruct (d_fields d) as [fields|]; [|eapply IH; exact H].
  unfold rbind in H.
  destruct (fields_loop isoformat float_of_decimal result fields _)
    as [r|e'] eqn:Hloop.
  - eapply IH. exact H.
  - inversion H; subst. eapply fields_loop_Raise. exact Hloop.
Qed.

Lemma fields_loop_missing (result : row) (fields : Dict.t string) (a : string) :
  In a (map snd fields) -> Dict.mem a result = false ->
  forall acc, exists b,
    fields_loop isoformat float_of_decimal result fields acc
    = Raise (NoSuchColumnError b).
Proof.
  intros Hin Hmem.
  induction fields as [|[f a'] fields IH]; intros acc; [destruct Hin|].
  simpl. unfold rbind, row_getitem.
  destruct (Dict.get a' result) as [v|] eqn:Hv; [|eauto].
  destruct Hin as [E|Hin]; [|now apply IH].
  simpl in E. subst a'. unfold Dict.mem in Hmem. now rewrite Hv in Hmem.
Qed.

Lemma materialize_missing (result : row) (entries : table_schema)
    (a : string) :
  In a (field_aliases entries) -> Dict.mem a result = false ->
  forall acc, exists b,
    materialize' result entries acc = Raise (NoSuchColumnError b).
Proof.
  intros Hin Hmem.
  induction entries as [|[c d] entries IH]; intros acc; [destruct Hin|].
  cbn [materialize]. unfold field_aliases in Hin. simpl in Hin.
  apply in_app_or in Hin.
  destruct (d_fields d) as [fields|].
  - unfold rbind.
    destruct (fields_loop isoformat float_of_decimal result fields _)
      as [r|e] eqn:Hloop.
    + destruct Hin as [Hin|Hin]; [|now apply IH].
      destruct (fields_loop_missing result fields a Hin Hmem
                  (direct_step isoformat float_of_decimal result d acc))
        as [b Hb].
      congruence.
    + destruct (fields_loop_Raise _ _ _ _ Hloop) as [b ->]. eauto.
  - destruct Hin as [[]|Hin]. now apply IH.
Qed.

Lemma process_message_outcome :
  forall (table id_name : string) (id_value : value) (q : string)
         (h : history),
    construct_query RELATIONSHIPS table id_name id_value = Ret q ->
    exists outcome,
      fetch table id_name id_value h
      = (Ret outcome, log h (EExecute q [("id_value", id_value)]))
      /\ ((exists record, outcome = (Some record, None))
          \/ outcome = (None, Some "No record found.")
          \/ outcome = (None, Some "Database error.")).
Proof.
  intros table id_name id_value q h Hq.
  assert (Hget : exists entries, Dict.get table RELATIONSHIPS = Some entries).
  { unfold construct_query, rbind, getitem in Hq.
    destruct (split2 table) as [[? ?]|]; [|discriminate].
    destruct (Dict.get table RELATIONSHIPS); [eauto | discriminate]. }
  destruct Hget as [entries Hget].
  unfold process_message, mbind, lift, try_except, execute, mret, getitem.
  rewrite Hq, Hget.
  destruct (db_execute w h q [("id_value", id_value)]) as [|result].
  - simpl. eexists. split; [reflexivity | auto].
  - destruct (row_is_true result);
      [|eexists; split; [reflexivity | auto]].
    destruct result as [result|];
      [|eexists; split; [reflexivity | auto]].
    destruct (materialize' result entries []) as [r|e] eqn:Hmat.
    + eexists. split; [reflexivity | eauto].
    + destruct (materialize_Raise _ _ _ _ Hmat) as [a ->]. simpl.
      eexists. split; [reflexivity | auto].
Qed.

(** X6: once the statement is built, [process_message] never raises.  It
    executes that one statement with the single parameter [id_value] and
    nothing else, and returns a record without error, or no record with
    one of the two errors. *)
Theorem fetch_returns_a_record_or_an_error :
  forall (table id_name : string) (id_value : value) (q : string)
         (h : history),
    construct_query RELATIONSHIPS table id_name id_value = Ret q ->
    exists outcome,
      fetch table id_name id_value h
      = (Ret outcome, log h (EExecute q [("id_value", id_value)]))
      /\ ((exists record, outcome = (Some record, None))
          \/ outcome = (None, Some "No record found.")
          \/ outcome = (None, Some "Database error.")).
Proof. exact process_message_outcome. Qed.

(** X7: a row that lacks the alias of a declared link field is reported
    as a database error: the lookup of the missing column raises
    [NoSuchColumnError], which the handler of [SQLAlchemyError]
    catches. *)
Theorem row_without_a_field_alias_is_a_database_error :
  forall (table id_name : string) (id_value : value) (q : string)
         (entries : table_schema) (result : row) (a : string) (h : history),
    construct_query RELATIONSHIPS table id_name id_value = Ret q ->
    Dict.get table RELATIONSHIPS = Some entries ->
    db_execute w h q [("id_value", id_value)] = ExecRow (Some result) ->
    Dict.is_empty result = false ->
    In a (field_aliases entries) -> Dict.mem a result = false ->
    fetch table id_name id_value h
    = (Ret (None, Some "Database error."),
       log h (EExecute q [("id_value", id_value)])).
Proof.
  intros table id_name id_value q entries result a h
         Hq Hget Hdb Hne Hin Hmem.
  unfold process_message, mbind, lift, try_except, execute, mret, getitem.
  rewrite Hq, Hdb, Hget.
  destruct result as [|kv result]; [discriminate|]. cbn [row_is_true].
  destruct (materialize_missing (kv :: result) entries a Hin Hmem [])
    as [b ->].
  reflexivity.
Qed.

(** X8: given the reply of the database to the statement, the outcome is
    "No record found." exactly when the reply holds no row or an empty
    mapping. *)
Theorem not_found_iff_the_row_is_false :
  forall (table id_name : string) (id_value : value) (q : string)
         (reply : option row) (h : history),
    construct_query RELATIONSHIPS table id_name id_value = Ret q ->
    db_execute w h q [("id_value", id_value)] = ExecRow reply ->
    fst (fetch table id_name id_value h)
    = Ret (None, Some "No record found.")
    <-> row_is_true reply = false.
Proof.
  intros table id_name id_value q reply h Hq Hdb.
  unfold process_message, mbind, lift, try_except, execute, mret.
  rewrite Hq, Hdb.
  destruct (row_is_true reply) eqn:Htrue; [|simpl; now split].
  destruct reply as [result|]; [|discriminate].
  split; [|discriminate]. intros H. exfalso.
  destruct (getitem table RELATIONSHIPS) as [entries|e].
  - destruct (materialize' result entries []) as [r|e]; simpl in H;
      [discriminate|].
    destruct (is_sqlalchemy_error e); simpl in H; discriminate.
  - destruct (is_sqlalchemy_error e); simpl in H; discriminate.
Qed.

End Fetch.

Lemma fetch_returns_a_record_or_an_error_witness :
  exists outcome,
    process_message py_isoformat float_of_integral_decimal scenario_schema
      empty_world root_table "id" (VStr "1") []
    = (Ret outcome,
       [EExecute
          ("SELECT bookings.transfer_services.status AS " ++ quoted "status"
             ++ ", customers_alias_1.name AS " ++ quoted "customer_name"
             ++ " FROM bookings.transfer_services"
             ++ " LEFT JOIN bookings.customers AS customers_alias_1"
             ++ " ON bookings.transfer_services.customer_id"
             ++ " = customers_alias_1.id"
             ++ " WHERE bookings.transfer_services.id = :id_value")
          [("id_value", VStr "1")]])
    /\ ((exists record, outcome = (Some record, None))
        \/ outcome = (None, Some "No record found.")
        \/ outcome = (None, Some "Database error.")).
Proof.
  exact (fetch_returns_a_record_or_an_error
           py_isoformat float_of_integral_decimal scenario_schema empty_world
           root_table "id" (VStr "1") _ [] eq_refl).
Defined.

Lemma row_without_a_field_alias_is_a_database_error_witness :
  fst (process_message py_isoformat float_of_integral_decimal
         scenario_schema partial_row_world root_table "id" (VStr "1") [])
  = Ret (None, Some "Database error.").
Proof.
  refine (f_equal fst
    (row_without_a_field_alias_is_a_database_error
       py_isoformat float_of_integral_decimal scenario_schema
       partial_row_world root_table "id" (VStr "1") _
       [("status", scalar "status");
        ("customer_id",
         link "bookings.customers.id" [("name", "customer_name")])]
       [("status", VStr "pending")] "customer_name" []
       eq_refl eq_refl eq_refl eq_refl _ eq_refl)).
  simpl. now left.
Defined.

Lemma not_found_iff_the_row_is_false_witness :
  fst (process_message py_isoformat float_of_integral_decimal
         scenario_schema empty_world root_table "id" (VStr "1") [])
  = Ret (None, Some "No record found.").
Proof.
  apply (not_found_iff_the_row_is_false
           py_isoformat float_of_integral_decimal scenario_schema empty_world
           root_table "id" (VStr "1") _ None [] eq_refl eq_refl).
  reflexivity.
Defined.

(** ** Field Mapper: buckets *)

Lemma mapped_columns_keys (record : pyrecord) (entries : table_schema) :
  forall acc,
    Dict.keys
      (fold_left
         (fun mapped_columns '(table, columns) =>
            Dict.set table (map_entry record columns) mapped_columns)
         entries acc)
    = (Dict.keys acc ++ fresh (Dict.keys acc) (Dict.keys entries))%list.
Proof.
  induction entries as [|[c d] entries IH]; intros acc; simpl.
  - now rewrite app_nil_r.
  - rewrite IH, dict_keys_set.
    destruct (Dict.mem c acc) eqn:Hmem.
    + apply dict_mem_keys in Hmem. apply existsb_eqb_In in Hmem.
      now rewrite Hmem.
    + assert (E : existsb (String.eqb c) (Dict.keys acc) = false).
      { destruct (existsb (String.eqb c) (Dict.keys acc)) eqn:E;
          [|reflexivity].
        apply existsb_eqb_In in E. apply dict_mem_keys in E. congruence. }
      rewrite E. now rewrite <- app_assoc.
Qed.

Lemma fresh_covers (l : list string) :
  forall seen x, In x l -> In x (seen ++ fresh seen l).
Proof.
  induction l as [|a l IH]; intros seen x Hin; [destruct Hin|]. simpl.
  destruct (existsb (String.eqb a) seen) eqn:E.
  - destruct Hin as [<-|Hin]; [|now apply IH].
    apply in_or_app. left. now apply existsb_eqb_In.
  - destruct Hin as [<-|Hin].
    + apply in_or_app. right. now left.
    + specialize (IH (seen ++ [a])%list x Hin).
      rewrite <- app_assoc in IH. exact IH.
Qed.

(** X9: the Field Mapper makes one bucket per local column of the table,
    in declaration order, also for a column none of whose fields is
    amended: every column of the table is a key of the result. *)
Theorem every_column_gets_a_bucket :
  forall (record : pyrecord) (entries : table_schema),
    Dict.keys (map_fields_to_columns record entries)
    = first_occurrences (Dict.keys entries)
    /\ (NoDup (Dict.keys entries) ->
        Dict.keys (map_fields_to_columns record entries) = Dict.keys entries)
    /\ (forall column d,
          In (column, d) entries ->
          Dict.mem column (map_fields_to_columns record entries) = true).
Proof.
  intros record entries.
  assert (Hkeys : Dict.keys (map_fields_to_columns record entries)
                  = first_occurrences (Dict.keys entries)).
  { unfold map_fields_to_columns. now rewrite mapped_columns_keys. }
  split; [exact Hkeys|]. split.
  - intros Hnd. rewrite Hkeys. apply fresh_NoDup; [exact Hnd|].
    intros x _ [].
  - intros column d Hin. apply dict_mem_keys. rewrite Hkeys.
    apply (fresh_covers (Dict.keys entries) [] column).
    unfold Dict.keys. apply in_map_iff. now exists (column, d).
Qed.

Lemma map_entry_ext (record record' : pyrecord) (d : descriptor) :
  (forall a,
     In a ((match d_alias d with Some a => [a] | None => [] end)
           ++ (match d_fields d with
               | Some fs => map snd fs
               | None => []
               end))%list ->
     Dict.get a record = Dict.get a record') ->
  map_entry record d = map_entry record' d.
Proof.
  intros H. unfold map_entry, map_direct.
  assert (Hd : match d_alias d with
               | Some alias =>
                   match Dict.get alias record with
                   | Some v => Dict.set alias v []
                   | None => []
                   end
               | None => []
               end
               = match d_alias d with
                 | Some alias =>
                     match Dict.get alias record' with
                     | Some v => Dict.set alias v []
                     | None => []
                     end
                 | None => []
                 end).
  { destruct (d_alias d) as [a|]; [|reflexivity].
    rewrite (H a); [reflexivity|]. apply in_or_app. left. now left. }
  rewrite Hd. destruct (d_fields d) as [fields|]; [|reflexivity].
  assert (Hf : forall f, In f fields ->
                 Dict.get (snd f) record = Dict.get (snd f) record').
  { intros f Hin. apply H. apply in_or_app. right. now apply in_map. }
  clear H Hd. generalize (match d_alias d with
                          | Some alias =>
                              match Dict.get alias record' with
                              | Some v => Dict.set alias v []
                              | None => []
                              end
                          | None => []
                          end).
  induction fields as [|f fields IH]; intros bucket; [reflexivity|]. simpl.
  unfold map_field at 2 4. rewrite (Hf f (or_introl eq_refl)).
  apply IH. intros f' Hin. apply Hf. now right.
Qed.

(** X10: the Field Mapper reads the amendment only at the aliases that
    the table names: two amendments that agree on them are mapped to the
    same buckets, so keys of the amendment that the schema does not name
    are ignored. *)
Theorem mapper_ignores_keys_the_schema_does_not_name :
  forall (record record' : pyrecord) (entries : table_schema),
    (forall a, In a (named_aliases entries) ->
               Dict.get a record = Dict.get a record') ->
    map_fields_to_columns record entries
    = map_fields_to_columns record' entries.
Proof.
  intros record record' entries. unfold map_fields_to_columns.
  generalize (@nil (string * Dict.t value)).
  induction entries as [|[c d] entries IH]; intros acc H; [reflexivity|].
  simpl. rewrite (map_entry_ext record record' d).
  - apply IH. intros a Ha. apply H. unfold named_aliases. simpl.
    apply in_or_app. now right.
  - intros a Ha. apply H. unfold named_aliases. simpl.
    apply in_or_app. now left.
Qed.

Lemma mapper_ignores_keys_the_schema_does_not_name_witness :
  map_fields_to_columns
    [("customer_name", VStr "Ana Lopez"); ("note", VStr "call back")]
    dated_schema
  = map_fields_to_columns [("customer_name", VStr "Ana Lopez")] dated_schema.
Proof.
  apply (mapper_ignores_keys_the_schema_does_not_name
           [("customer_name", VStr "Ana Lopez"); ("note", VStr "call back")]
           [("customer_name", VStr "Ana Lopez")] dated_schema).
  intros a Ha. vm_compute in Ha.
  destruct Ha as [<-|[<-|[]]]; reflexivity.
Defined.

Lemma map_fields_values (record : pyrecord) (fields : Dict.t string) :
  forall bucket k v,
    In (k, v) (fold_left (map_field record) fields bucket) ->
    In (k, v) bucket
    \/ exists a, In a (map snd fields) /\ Dict.get a record = Some v.
Proof.
  induction fields as [|f fields IH]; intros bucket k v Hin; [now left|].
  simpl in Hin. apply IH in Hin.
  destruct Hin as [Hin|[a [Ha Hv]]].
  - unfold map_field in Hin.
    destruct (Dict.get (snd f) record) as [x|] eqn:Hx; [|now left].
    apply dict_set_In in Hin. destruct Hin as [[= -> ->]|Hin]; [|now left].
    right. exists (snd f). split; [now left | exact Hx].
  - right. exists a. split; [now right | exact Hv].
Qed.

(** X11: the Field Mapper invents no value: every value in a bucket is
    the value the amendment holds for an alias that the table names; an
    amendment that holds none of these aliases gives empty buckets
    only. *)
Theorem buckets_hold_only_amended_values :
  forall (record : pyrecord) (entries : table_schema)
         (column : string) (bucket : Dict.t value),
    Dict.get column (map_fields_to_columns record entries) = Some bucket ->
    (forall k v, In (k, v) bucket ->
       exists a, In a (named_aliases entries)
                 /\ Dict.get a record = Some v)
    /\ ((forall a, In a (named_aliases entries) ->
                   Dict.get a record = None) ->
        bucket = []).
Proof.
  intros record entries column bucket Hget.
  apply mapped_columns_from_schema in Hget.
  destruct Hget as [d [Hin ->]].
  assert (Hnamed : forall a,
    In a ((match d_alias d with Some a => [a] | None => [] end)
          ++ (match d_fields d with
              | Some fs => map snd fs
              | None => []
              end))%list ->
    In a (named_aliases entries)).
  { intros a Ha. unfold named_aliases. apply in_flat_map.
    exists (column, d). split; [exact Hin | exact Ha]. }
  assert (Hvalues : forall k v, In (k, v) (map_entry record d) ->
            exists a, In a (named_aliases entries)
                      /\ Dict.get a record = Some v).
  { intros k v Hkv. unfold map_entry in Hkv.
    assert (Hdirect : forall k' v', In (k', v') (map_direct record d) ->
              exists a, In a (named_aliases entries)
                        /\ Dict.get a record = Some v').
    { intros k' v' H. unfold map_direct in H.
      destruct (d_alias d) as [a|] eqn:Ha; [|destruct H].
      destruct (Dict.get a record) as [x|] eqn:Hx; [|destruct H].
      destruct H as [[= <- <-]|[]]. exists a. split; [|exact Hx].
      apply Hnamed. apply in_or_app. left. now left. }
    destruct (d_fields d) as [fields|] eqn:Hfields;
      [|eapply Hdirect; exact Hkv].
    apply map_fields_values in Hkv.
    destruct Hkv as [Hkv|[a [Ha Hv]]]; [eapply Hdirect; exact Hkv|].
    exists a. split; [|exact Hv].
    apply Hnamed. apply in_or_app. now right. }
  split; [exact Hvalues|].
  intros Hnone. destruct (map_entry record d) as [|[k v] rest]; [reflexivity|].
  destruct (Hvalues k v (or_introl eq_refl)) as [a [Ha Hv]].
  rewrite (Hnone a Ha) in Hv. discriminate.
Qed.

Lemma buckets_hold_only_amended_values_witness :
  exists a, In a (named_aliases dated_schema)
            /\ Dict.get a dated_record = Some (VFloat (MkFloat 125 0)).
Proof.
  exact (proj1
    (buckets_hold_only_amended_values dated_record dated_schema
       "customer_id" [("balance", VFloat (MkFloat 125 0))] eq_refl)
    "balance" (VFloat (MkFloat 125 0)) (or_introl eq_refl)).
Defined.

(** ** Update Propagator: outcomes of a call that fetches its row *)

Lemma for_each_app {A} (f : A -> M unit) (a b : list A) (h : history) :
  for_each f (a ++ b) h = mbind (for_each f a) (fun _ => for_each f b) h.
Proof.
  revert h. induction a as [|x a IH]; intros h; [reflexivity|].
  simpl. unfold mbind in *. destruct (f x h) as [[[]|e] h1]; [|reflexivity].
  apply IH.
Qed.

Lemma for_each_flat_map {A} (w : World) (f : A -> M unit)
    (g : A -> history) (l : list A) :
  (forall x h, f x h = for_each (send w) (g x) h) ->
  forall h, for_each f l h = for_each (send w) (flat_map g l) h.
Proof.
  intros H. induction l as [|x l IH]; intros h; [reflexivity|].
  simpl. rewrite for_each_app. unfold mbind. rewrite H.
  destruct (for_each (send w) (g x) h) as [[[]|e] h1]; [apply IH|reflexivity].
Qed.

Lemma execute_updates_sends (w : World) (upt : updates_table) (h : history) :
  execute_updates w upt h = for_each (send w) (update_events upt) h.
Proof.
  unfold execute_updates, update_events.
  apply for_each_flat_map. intros [name us] h1. simpl.
  apply for_each_flat_map. intros u h2.
  unfold execute_update, update_event.
  destruct (Dict.is_empty (columns u)); [reflexivity|].
  simpl. unfold mbind, mret.
  now destruct (execute w _ _ h2) as [[r|e] h3].
Qed.

Lemma send_all_stops_at_failure (w : World) (pre post : history)
    (e : event) :
  (forall x, In x pre -> succeeds w x) ->
  (forall x, In x pre -> exists sql params, x = EExecute sql params) ->
  fails w e ->
  forall h,
    for_each (send w) (pre ++ e :: post) h
    = (Raise SQLAlchemyError, (h ++ pre ++ [e])%list).
Proof.
  intros Hpre Hexec Hfail.
  induction pre as [|x pre IH]; intros h.
  - destruct e as [sql params| | | |]; try destruct Hfail.
    simpl. unfold mbind, execute. now rewrite Hfail.
  - destruct (Hexec x (or_introl eq_refl)) as [sql [params ->]].
    pose proof (Hpre _ (or_introl eq_refl) h) as Hx. simpl in Hx.
    cbn [app for_each send]. unfold mbind at 1 2, execute, mret.
    destruct (db_execute w h sql params) as [|r]; [now destruct Hx|].
    rewrite IH.
    + unfold log. now rewrite <- app_assoc.
    + intros y Hy. apply Hpre. now right.
    + intros y Hy. apply Hexec. now right.
Qed.

Lemma update_events_are_statements (upt : updates_table) (x : event) :
  In x (update_events upt) -> exists sql params, x = EExecute sql params.
Proof.
  unfold update_events, update_event. intros H.
  apply in_flat_map in H. destruct H as [[name us] [_ H]].
  apply in_flat_map in H. destruct H as [u [_ H]].
  destruct (Dict.is_empty (columns u)); [destruct H|].
  destruct H as [<-|[]]. eauto.
Qed.

Section StagedCall.

Variable R : relationship_schema.
Variable w : World.
Variable rec : propagate.
Variables table id_name : string.
Variable id_value : value.
Variable updated_record : pyrecord.
Variables schema main_table : string.
Variable entries : table_schema.
Variable result : row.
Variable h : history.

Local Abbreviation fetch_query :=
  (fetch_text schema main_table (last_component id_name)).
Local Abbreviation fetch_event :=
  (EExecute (fetch_text schema main_table (last_component id_name))
            [("id_value", id_value)]).

Hypothesis table_declared : Dict.get table R = Some entries.
Hypothesis table_splits : split2 table = Ret (schema, main_table).
Hypothesis row_found :
  db_execute w h fetch_query [("id_value", id_value)]
  = ExecRow (Some result).
Hypothesis row_not_empty : Dict.is_empty result = false.

Lemma call_reaches_the_updates (upt : updates_table) (h1 : history) :
  stage_loop R rec result (map_fields_to_columns updated_record entries)
             updated_record entries [] (log h fetch_event)
  = (Ret upt, h1) ->
  update_database_body R w rec table id_name id_value updated_record None h
  = try_except (apply_updates w upt (Some fetch_query) id_value)
               (mbind (rollback) (fun _ => mret false)) h1.
Proof.
  intros Hstage.
  unfold update_database_body, mbind at 1, lift at 1, getitem.
  rewrite table_declared.
  unfold try_except, update_database_try, mbind at 1, lift at 1.
  rewrite table_splits. cbv iota beta.
  unfold resolve_row, mbind at 1 2, execute at 1. rewrite row_found.
  unfold mret at 1. cbv iota beta.
  unfold propagate_row. destruct result as [|kv rest]; [discriminate|].
  cbn [row_is_true]. unfold mbind at 1, lift at 1, getitem.
  rewrite table_declared.
  unfold mbind at 1. rewrite Hstage. reflexivity.
Qed.

End StagedCall.

(** X12: when the root fetch finds no row, or an empty mapping, the call
    returns [False] after that one statement: nothing is staged,
    committed or rolled back. *)
Theorem missing_row_fails_the_call_without_write :
  forall (R : relationship_schema) (w : World) (limit : nat)
         (table id_name : string) (id_value : value)
         (updated_record : pyrecord) (schema main_table : string)
         (entries : table_schema) (reply : option row) (h : history),
    Dict.get table R = Some entries ->
    split2 table = Ret (schema, main_table) ->
    db_execute w h (fetch_text schema main_table (last_component id_name))
               [("id_value", id_value)] = ExecRow reply ->
    row_is_true reply = false ->
    update_database R w (S limit) table id_name id_value updated_record
                    None h
    = (Ret false,
       log h (EExecute
                (fetch_text schema main_table (last_component id_name))
                [("id_value", id_value)])).
Proof.
  intros R w limit table id_name id_value updated_record schema main_table
         entries reply h Hget Hsplit Hdb Hfalse.
  unfold update_database. cbn [update_database_rec].
  unfold update_database_body, mbind at 1, lift at 1, getitem.
  rewrite Hget.
  unfold try_except, update_database_try, mbind at 1, lift at 1.
  rewrite Hsplit. cbv iota beta.
  unfold resolve_row, mbind at 1 2, execute at 1. rewrite Hdb.
  unfold mret at 1. cbv iota beta.
  unfold propagate_row. rewrite Hfalse. reflexivity.
Qed.

Lemma missing_row_fails_the_call_without_write_witness :
  update_database scenario_schema empty_world 8 root_table "id" (VStr "1")
                  [("customer_name", VStr "Ana Lopez")] None []
  = (Ret false,
     [EExecute "SELECT * FROM bookings.transfer_services WHERE id = :id_value"
               [("id_value", VStr "1")]]).
Proof.
  exact (missing_row_fails_the_call_without_write
           scenario_schema empty_world 7 root_table "id" (VStr "1")
           [("customer_name", VStr "Ana Lopez")]
           "bookings" "transfer_services" _ None []
           eq_refl eq_refl eq_refl eq_refl).
Defined.

(** X13: when the root fetch fails in the database, the call rolls back
    and returns [False]; nothing else is executed. *)
Theorem failed_fetch_rolls_back :
  forall (R : relationship_schema) (w : World) (limit : nat)
         (table id_name : string) (id_value : value)
         (updated_record : pyrecord) (schema main_table : string)
         (entries : table_schema) (h : history),
    Dict.get table R = Some entries ->
    split2 table = Ret (schema, main_table) ->
    db_execute w h (fetch_text schema main_table (last_component id_name))
               [("id_value", id_value)] = ExecError ->
    update_database R w (S limit) table id_name id_value updated_record
                    None h
    = (Ret false,
       (h ++ [EExecute
                (fetch_text schema main_table (last_component id_name))
                [("id_value", id_value)];
              ERollback])%list).
Proof.
  intros R w limit table id_name id_value updated_record schema main_table
         entries h Hget Hsplit Hdb.
  unfold update_database. cbn [update_database_rec].
  unfold update_database_body, mbind at 1, lift at 1, getitem.
  rewrite Hget.
  unfold try_except, update_database_try, mbind at 1, lift at 1.
  rewrite Hsplit. cbv iota beta.
  unfold resolve_row, mbind at 1 2, execute at 1. rewrite Hdb.
  cbn. unfold log. now rewrite <- app_assoc.
Qed.

Lemma failed_fetch_rolls_back_witness :
  update_database leaf_schema fails_after_commit 8 "bookings.customers"
                  "id" (VInt 7) [] None [ECommit]
  = (Ret false,
     [ECommit;
      EExecute "SELECT * FROM bookings.customers WHERE id = :id_value"
               [("id_value", VInt 7)];
      ERollback]).
Proof.
  exact (failed_fetch_rolls_back
           leaf_schema fails_after_commit 7 "bookings.customers" "id"
           (VInt 7) [] "bookings" "customers" _ [ECommit]
           eq_refl eq_refl eq_refl).
Defined.

Lemma stage_loop_all_null (R : relationship_schema) (rec : propagate)
    (result : row) (mapped : Dict.t (Dict.t value)) (u : pyrecord)
    (entries : table_schema) :
  (forall c d, In (c, d) entries ->
     link_ok d = true /\ is_None (row_get c result) = true) ->
  forall upt h,
    stage_loop R rec result mapped u entries upt h = (Ret upt, h).
Proof.
  induction entries as [|[c d] rest IH]; intros H upt h; [reflexivity|].
  rewrite stage_loop_cons.
  destruct (H c d (or_introl eq_refl)) as [Hok Hnull].
  unfold link_ok in Hok.
  destruct (d_ref d) as [ref|]; [|discriminate].
  destruct (split3 ref) as [[[rs rt] rc]|e]; [|discriminate].
  rewrite Hnull. apply IH. intros c' d' Hin. apply H. now right.
Qed.

(** X14: a link whose foreign key is null or absent in the row is
    skipped before anything is staged or any recursive call is made:
    when this holds for every link of the table, the call executes no
    UPDATE, commits, re-fetches and returns [True]. *)
Theorem null_foreign_keys_are_skipped :
  forall (R : relationship_schema) (w : World) (limit : nat)
         (table id_name : string) (id_value : value)
         (updated_record : pyrecord) (schema main_table : string)
         (entries : table_schema) (result : row) (h : history),
    let fetch_event :=
      EExecute (fetch_text schema main_table (last_component id_name))
               [("id_value", id_value)] in
    Dict.get table R = Some entries ->
    split2 table = Ret (schema, main_table) ->
    db_execute w h (fetch_text schema main_table (last_component id_name))
               [("id_value", id_value)] = ExecRow (Some result) ->
    Dict.is_empty result = false ->
    (forall c d, In (c, d) entries ->
       link_ok d = true /\ is_None (row_get c result) = true) ->
    db_commit w (log h fetch_event) = true ->
    db_execute w (log (log h fetch_event) ECommit)
               (fetch_text schema main_table (last_component id_name))
               [("id_value", id_value)] <> ExecError ->
    update_database R w (S limit) table id_name id_value updated_record
                    None h
    = (Ret true, (h ++ [fetch_event; ECommit; fetch_event])%list).
Proof.
  intros R w limit table id_name id_value updated_record schema main_table
         entries result h fetch_event Hget Hsplit Hdb Hne Hnull Hcommit Hre.
  unfold update_database. cbn [update_database_rec].
  rewrite (call_reaches_the_updates R w _ table id_name id_value
             updated_record schema main_table entries result h
             Hget Hsplit Hdb Hne [] (log h fetch_event)).
  2: { apply stage_loop_all_null. exact Hnull. }
  unfold try_except, apply_updates, execute_updates.
  cbn [for_each]. unfold mbind at 1 2, mret at 1, commit.
  fold fetch_event. rewrite Hcommit.
  unfold mbind at 1 2, lift, read_fetch_query, execute.
  match goal with
  | |- context [db_execute w ?hh ?sql ?params] =>
      destruct (db_execute w hh sql params) as [|r]; [now destruct Hre|]
  end.
  unfold mbind, mret, log. now rewrite <- !app_assoc.
Qed.

Lemma null_foreign_keys_are_skipped_witness :
  update_database links_only_schema unlinked_world 8 root_table "id"
                  (VStr "1") [("customer_name", VStr "Ana Lopez")] None []
  = (Ret true,
     [EExecute "SELECT * FROM bookings.transfer_services WHERE id = :id_value"
               [("id_value", VStr "1")];
      ECommit;
      EExecute "SELECT * FROM bookings.transfer_services WHERE id = :id_value"
               [("id_value", VStr "1")]]).
Proof.
  refine (null_foreign_keys_are_skipped
            links_only_schema unlinked_world 7 root_table "id" (VStr "1")
            [("customer_name", VStr "Ana Lopez")]
            "bookings" "transfer_services" _ unlinked_row []
            eq_refl eq_refl eq_refl eq_refl _ eq_refl _).
  - intros c d [E|[]]. inversion E; subst. split; reflexivity.
  - discriminate.
Defined.

(** X15: the staged statements are sent in order and the first that the
    database refuses ends the call: the statements after it are not
    sent, nothing is committed, the call rolls back and returns
    [False]. *)
Theorem failed_update_rolls_back_and_stops :
  forall (R : relationship_schema) (w : World) (rec : propagate)
         (table id_name : string) (id_value : value)
         (updated_record : pyrecord) (schema main_table : string)
         (entries : table_schema) (result : row) (upt : updates_table)
         (pre post : history) (e : event) (h : history),
    let fetch_event :=
      EExecute (fetch_text schema main_table (last_component id_name))
               [("id_value", id_value)] in
    Dict.get table R = Some entries ->
    split2 table = Ret (schema, main_table) ->
    db_execute w h (fetch_text schema main_table (last_component id_name))
               [("id_value", id_value)] = ExecRow (Some result) ->
    Dict.is_empty result = false ->
    nested_calls_return R rec result updated_record entries ->
    staged_updates (map_fields_to_columns updated_record entries)
                   result entries [] = Ret upt ->
    update_events upt = (pre ++ e :: post)%list ->
    (forall x, In x pre -> succeeds w x) ->
    fails w e ->
    exists h1,
      stage_loop R rec result
                 (map_fields_to_columns updated_record entries)
                 updated_record entries [] (log h fetch_event)
      = (Ret upt, h1)
      /\ update_database_body R w rec table id_name id_value updated_record
                              None h
         = (Ret false, (h1 ++ pre ++ [e; ERollback])%list).
Proof.
  intros R w rec table id_name id_value updated_record schema main_table
         entries result upt pre post e h fetch_event
         Hget Hsplit Hdb Hne Hrec Hst Hevents Hpre Hfail.
  destruct (stage_loop_returns R rec result
              (map_fields_to_columns updated_record entries)
              updated_record entries Hrec [] upt Hst (log h fetch_event))
    as [h1 Hstage].
  exists h1. split; [exact Hstage|].
  rewrite (call_reaches_the_updates R w rec table id_name id_value
             updated_record schema main_table entries result h
             Hget Hsplit Hdb Hne upt h1 Hstage).
  unfold try_except, apply_updates, mbind at 1.
  rewrite execute_updates_sends, Hevents.
  rewrite send_all_stops_at_failure; [|exact Hpre| |exact Hfail].
  - cbn. unfold log. now rewrite <- !app_assoc.
  - intros x Hx. apply (update_events_are_statements upt).
    rewrite Hevents. apply in_or_app. now left.
Qed.

Lemma failed_update_rolls_back_and_stops_witness :
  update_database two_links_schema customers_fail 8 root_table "id"
                  (VStr "1") branch_amendment None []
  = (Ret false,
     [EExecute "SELECT * FROM bookings.transfer_services WHERE id = :id_value"
               [("id_value", VStr "1")];
      EExecute (update_text "bookings.customers" ["name"] "id")
               [("name", VStr "Ana Lopez"); ("related_id", VInt 7)];
      ERollback]).
Proof.
  destruct (failed_update_rolls_back_and_stops
              two_links_schema customers_fail
              (update_database_rec two_links_schema customers_fail 7)
              root_table "id" (VStr "1") branch_amendment
              "bookings" "transfer_services"
              [("customer_id",
                link "bookings.customers.id" [("name", "customer_name")]);
               ("driver_id",
                link "bookings.drivers.id" [("phone", "driver_phone")])]
              branch_row
              [("bookings.customers",
                [UpdateInfo [("name", VStr "Ana Lopez")] (VInt 7) "id"]);
               ("bookings.drivers",
                [UpdateInfo [("phone", VStr "555")] (VInt 9) "id"])]
              []
              [EExecute (update_text "bookings.drivers" ["phone"] "id")
                        [("phone", VStr "555"); ("related_id", VInt 9)]]
              (EExecute (update_text "bookings.customers" ["name"] "id")
                        [("name", VStr "Ana Lopez"); ("related_id", VInt 7)])
              [] eq_refl eq_refl eq_refl eq_refl)
    as [h1 [Hstage Hrun]].
  - intros column d ref rs rt rc h Hin Href Hsplit Hnone Hmem.
    destruct Hin as [E|[E|[]]]; inversion E; subst; simpl in Href;
      inversion Href; subst; vm_compute in Hsplit; inversion Hsplit; subst;
      vm_compute in Hmem; discriminate.
  - vm_compute. reflexivity.
  - vm_compute. reflexivity.
  - intros x [].
  - intros h'. vm_compute. reflexivity.
  - vm_compute in Hstage. inversion Hstage; subst h1. exact Hrun.
Defined.

(** X16: when the commit fails, the call rolls back and returns [False]
    after all its staged statements were sent. *)
Theorem failed_commit_rolls_back :
  forall (R : relationship_schema) (w : World) (rec : propagate)
         (table id_name : string) (id_value : value)
         (updated_record : pyrecord) (schema main_table : string)
         (entries : table_schema) (result : row) (upt : updates_table)
         (h : history),
    let fetch_event :=
      EExecute (fetch_text schema main_table (last_component id_name))
               [("id_value", id_value)] in
    Dict.get table R = Some entries ->
    split2 table = Ret (schema, main_table) ->
    db_execute w h (fetch_text schema main_table (last_component id_name))
               [("id_value", id_value)] = ExecRow (Some result) ->
    Dict.is_empty result = false ->
    nested_calls_return R rec result updated_record entries ->
    staged_updates (map_fields_to_columns updated_record entries)
                   result entries [] = Ret upt ->
    (forall x, In x (update_events upt) -> succeeds w x) ->
    (forall h', db_commit w h' = false) ->
    exists h1,
      stage_loop R rec result
                 (map_fields_to_columns updated_record entries)
                 updated_record entries [] (log h fetch_event)
      = (Ret upt, h1)
      /\ update_database_body R w rec table id_name id_value updated_record
                              None h
         = (Ret false,
            (h1 ++ update_events upt ++ [ECommit; ERollback])%list).
Proof.
  intros R w rec table id_name id_value updated_record schema main_table
         entries result upt h fetch_event
         Hget Hsplit Hdb Hne Hrec Hst Hupd Hcommit.
  destruct (stage_loop_returns R rec result
              (map_fields_to_columns updated_record entries)
              updated_record entries Hrec [] upt Hst (log h fetch_event))
    as [h1 Hstage].
  exists h1. split; [exact Hstage|].
  rewrite (call_reaches_the_updates R w rec table id_name id_value
             updated_record schema main_table entries result h
             Hget Hsplit Hdb Hne upt h1 Hstage).
  unfold try_except, apply_updates, mbind at 1.
  rewrite (execute_updates_ok w upt h1 Hupd).
  unfold mbind at 1, commit. rewrite Hcommit.
  cbn. unfold log. now rewrite <- !app_assoc.
Qed.

Lemma failed_commit_rolls_back_witness :
  update_database two_links_schema commit_fails 8 root_table "id"
                  (VStr "1") branch_amendment None []
  = (Ret false,
     [EExecute "SELECT * FROM bookings.transfer_services WHERE id = :id_value"
               [("id_value", VStr "1")];
      EExecute (update_text "bookings.customers" ["name"] "id")
               [("name", VStr "Ana Lopez"); ("related_id", VInt 7)];
      EExecute (update_text "bookings.drivers" ["phone"] "id")
               [("phone", VStr "555"); ("related_id", VInt 9)];
      ECommit;
      ERollback]).
Proof.
  destruct (failed_commit_rolls_back
              two_links_schema commit_fails
              (update_database_rec two_links_schema commit_fails 7)
              root_table "id" (VStr "1") branch_amendment
              "bookings" "transfer_services"
              [("customer_id",
                link "bookings.customers.id" [("name", "customer_name")]);
               ("driver_id",
                link "bookings.drivers.id" [("phone", "driver_phone")])]
              branch_row
              [("bookings.customers",
                [UpdateInfo [("name", VStr "Ana Lopez")] (VInt 7) "id"]);
               ("bookings.drivers",
                [UpdateInfo [("phone", VStr "555")] (VInt 9) "id"])]
              [] eq_refl eq_refl eq_refl eq_refl)
    as [h1 [Hstage Hrun]].
  - intros column d ref rs rt rc h Hin Href Hsplit Hnone Hmem.
    destruct Hin as [E|[E|[]]]; inversion E; subst; simpl in Href;
      inversion Href; subst; vm_compute in Hsplit; inversion Hsplit; subst;
      vm_compute in Hmem; discriminate.
  - vm_compute. reflexivity.
  - intros x Hx. vm_compute in Hx.
    destruct Hx as [<-|[<-|[]]]; intros h'; vm_compute; discriminate.
  - intros h'. reflexivity.
  - vm_compute in Hstage. inversion Hstage; subst h1. exact Hrun.
Defined.

Lemma self_link_never_returns (R : relationship_schema) (w : World)
    (table schema main_table column ref rs rt rc : string) (d : descriptor)
    (rest : table_schema) (u : pyrecord) (result : row) :
  Dict.get table R = Some ((column, d) :: rest) ->
  split2 table = Ret (schema, main_table) ->
  d_ref d = Some ref -> split3 ref = Ret (rs, rt, rc) ->
  rs ++ "." ++ rt = table ->
  Dict.is_empty result = false ->
  is_None (row_get column result) = false ->
  forall depth n v h,
    update_database_rec R w depth table n v u (Some result) h
    = (Raise RecursionError, h).
Proof.
  intros Hget Hsplit Href Hsplit3 Hself Hne Hfk.
  assert (Hmem : Dict.mem table R = true).
  { unfold Dict.mem. now rewrite Hget. }
  induction depth as [|depth IH]; intros n v h; [reflexivity|].
  cbn [update_database_rec].
  unfold update_database_body, mbind at 1, lift at 1, getitem.
  rewrite Hget.
  unfold try_except, update_database_try, mbind at 1, lift at 1.
  rewrite Hsplit. cbv iota beta.
  unfold resolve_row, mbind at 1, mret at 1. cbv iota beta.
  unfold propagate_row. destruct result as [|kv more]; [discriminate|].
  cbn [row_is_true]. unfold mbind at 1, lift at 1, getitem. rewrite Hget.
  unfold mbind at 1. rewrite stage_loop_cons, Href, Hsplit3, Hfk.
  cbv zeta. rewrite Hself, Hmem, IH. reflexivity.
Qed.

(** X17: a table whose first link references the table itself makes the
    propagation recurse on the same row without end: when the row holds
    that foreign key, the call raises [RecursionError] for every
    recursion limit, after the root fetch and before any UPDATE or
    commit. *)
Theorem self_link_exhausts_the_recursion :
  forall (R : relationship_schema) (w : World) (limit : nat)
         (table id_name schema main_table column ref rs rt rc : string)
         (d : descriptor) (rest : table_schema) (id_value : value)
         (updated_record : pyrecord) (result : row) (h : history),
    Dict.get table R = Some ((column, d) :: rest) ->
    split2 table = Ret (schema, main_table) ->
    d_ref d = Some ref -> split3 ref = Ret (rs, rt, rc) ->
    rs ++ "." ++ rt = table ->
    db_execute w h (fetch_text schema main_table (last_component id_name))
               [("id_value", id_value)] = ExecRow (Some result) ->
    Dict.is_empty result = false ->
    is_None (row_get column result) = false ->
    update_database R w (S limit) table id_name id_value updated_record
                    None h
    = (Raise RecursionError,
       log h (EExecute
                (fetch_text schema main_table (last_component id_name))
                [("id_value", id_value)])).
Proof.
  intros R w limit table id_name schema main_table column ref rs rt rc d
         rest id_value updated_record result h
         Hget Hsplit Href Hsplit3 Hself Hdb Hne Hfk.
  assert (Hmem : Dict.mem table R = true).
  { unfold Dict.mem. now rewrite Hget. }
  unfold update_database. cbn [update_database_rec].
  unfold update_database_body, mbind at 1, lift at 1, getitem.
  rewrite Hget.
  unfold try_except, update_database_try, mbind at 1, lift at 1.
  rewrite Hsplit. cbv iota beta.
  unfold resolve_row, mbind at 1 2, execute at 1. rewrite Hdb.
  unfold mret at 1. cbv iota beta.
  unfold propagate_row. destruct result as [|kv more]; [discriminate|].
  cbn [row_is_true]. unfold mbind at 1, lift at 1, getitem. rewrite Hget.
  unfold mbind at 1. rewrite stage_loop_cons, Href, Hsplit3, Hfk.
  cbv zeta. rewrite Hself, Hmem.
  rewrite (self_link_never_returns R w table schema main_table column ref
             rs rt rc d rest updated_record (kv :: more)
             Hget Hsplit Href Hsplit3 Hself Hne Hfk).
  reflexivity.
Qed.

Lemma self_link_exhausts_the_recursion_witness :
  update_database self_schema self_world 1000 "bookings.customers" "id"
                  (VInt 7) [("referrer_name", VStr "Ana")] None []
  = (Raise RecursionError,
     [EExecute "SELECT * FROM bookings.customers WHERE id = :id_value"
               [("id_value", VInt 7)]]).
Proof.
  exact (self_link_exhausts_the_recursion
           self_schema self_world 999 "bookings.customers" "id"
           "bookings" "customers" "referrer_id" "bookings.customers.id"
           "bookings" "customers" "id"
           (link "bookings.customers.id" [("name", "referrer_name")]) []
           (VInt 7) [("referrer_name", VStr "Ana")] self_row []
           eq_refl eq_refl eq_refl eq_refl eq_refl eq_refl eq_refl eq_refl).
Defined.

Lemma stage_branch_empty (mapped : Dict.t (Dict.t value))
    (column name rc : string) (fk : value) (upt : updates_table) :
  (forall c b, Dict.get c mapped = Some b -> b = []) ->
  (forall n us x, In (n, us) upt -> In x us -> columns x = []) ->
  forall n us x,
    In (n, us) (stage_branch mapped column name rc fk upt) ->
    In x us -> columns x = [].
Proof.
  intros Hmapped Hupt n us x Hin Hx. unfold stage_branch in Hin.
  set (upt1 := if Dict.mem name upt then upt else Dict.set name [] upt) in *.
  assert (H1 : forall n us x, In (n, us) upt1 -> In x us -> columns x = []).
  { subst upt1. destruct (Dict.mem name upt); [exact Hupt|].
    intros n' us' x' Hin' Hx'. apply dict_set_In in Hin'.
    destruct Hin' as [[= -> ->]|Hin']; [destruct Hx' | eauto]. }
  destruct (Dict.get column mapped) as [cols|] eqn:Hcols; [|eauto].
  unfold append_update in Hin.
  destruct (Dict.get name upt1) as [us0|] eqn:Hus0; [|eauto].
  apply dict_set_In in Hin. destruct Hin as [[= -> ->]|Hin]; [|eauto].
  apply in_app_or in Hx. destruct Hx as [Hx|[<-|[]]].
  - eapply H1; [apply dict_get_In; exact Hus0 | exact Hx].
  - simpl. eapply Hmapped. exact Hcols.
Qed.

Lemma update_events_of_empty_sets (upt : updates_table) :
  (forall n us x, In (n, us) upt -> In x us -> columns x = []) ->
  update_events upt = [].
Proof.
  unfold update_events.
  induction upt as [|[n us] upt IH]; intros H; [reflexivity|]. simpl.
  rewrite IH by (intros n' us' x Hin Hx;
                 exact (H n' us' x (or_intror Hin) Hx)).
  rewrite app_nil_r.
  assert (Hus : forall x, In x us -> columns x = [])
    by (intros x Hx; exact (H n us x (or_introl eq_refl) Hx)).
  clear -Hus. induction us as [|u us IHus]; [reflexivity|]. simpl.
  rewrite IHus by (intros x Hx; apply Hus; now right).
  unfold update_event. now rewrite (Hus u (or_introl eq_refl)).
Qed.

Lemma staged_updates_empty (mapped : Dict.t (Dict.t value)) (result : row)
    (entries : table_schema) :
  (forall c b, Dict.get c mapped = Some b -> b = []) ->
  forall upt0 upt,
    (forall n us x, In (n, us) upt0 -> In x us -> columns x = []) ->
    staged_updates mapped result entries upt0 = Ret upt ->
    update_events upt = [].
Proof.
  intros Hmapped.
  induction entries as [|[c d] rest IH]; intros upt0 upt Hupt0 H.
  - inversion H; subst. now apply update_events_of_empty_sets.
  - cbn [staged_updates] in H. unfold rbind, require in H.
    destruct (d_ref d) as [ref|]; [|discriminate].
    destruct (split3 ref) as [[[rs rt] rc]|e]; [|discriminate].
    destruct (is_None (row_get c result)); [eapply IH; eassumption|].
    eapply IH; [|exact H].
    now apply stage_branch_empty.
Qed.

(** X18: an amendment that holds none of the aliases of the table stages
    only empty update sets, which are skipped: the call sends no UPDATE,
    and still commits, re-fetches and returns [True]. *)
Theorem amendment_without_known_alias_updates_nothing :
  forall (R : relationship_schema) (w : World) (rec : propagate)
         (table id_name : string) (id_value : value)
         (updated_record : pyrecord) (schema main_table : string)
         (entries : table_schema) (result : row) (upt : updates_table)
         (h : history),
    let fetch_event :=
      EExecute (fetch_text schema main_table (last_component id_name))
               [("id_value", id_value)] in
    Dict.get table R = Some entries ->
    split2 table = Ret (schema, main_table) ->
    db_execute w h (fetch_text schema main_table (last_component id_name))
               [("id_value", id_value)] = ExecRow (Some result) ->
    Dict.is_empty result = false ->
    nested_calls_return R rec result updated_record entries ->
    staged_updates (map_fields_to_columns updated_record entries)
                   result entries [] = Ret upt ->
    (forall a, In a (named_aliases entries) ->
               Dict.get a updated_record = None) ->
    succeeds w fetch_event ->
    (forall h', db_commit w h' = true) ->
    exists h1,
      stage_loop R rec result
                 (map_fields_to_columns updated_record entries)
                 updated_record entries [] (log h fetch_event)
      = (Ret upt, h1)
      /\ update_database_body R w rec table id_name id_value updated_record
                              None h
         = (Ret true, (h1 ++ [ECommit; fetch_event])%list).
Proof.
  intros R w rec table id_name id_value updated_record schema main_table
         entries result upt h fetch_event
         Hget Hsplit Hdb Hne Hrec Hst Hnone Hfetch Hcommit.
  assert (Hevents : update_events upt = []).
  { eapply staged_updates_empty; [| |exact Hst].
    - intros c b Hb.
      pose proof (mapped_columns_from_schema _ _ _ _ Hb) as [d [Hin ->]].
      destruct (map_entry updated_record d) as [|[k v] more] eqn:Hentry;
        [reflexivity|].
      exfalso.
      assert (Hkv : In (k, v) (map_entry updated_record d))
        by (rewrite Hentry; now left).
      clear Hentry. unfold map_entry in Hkv.
      assert (Hdirect : map_direct updated_record d = []).
      { unfold map_direct. destruct (d_alias d) as [a|] eqn:Ha;
          [|reflexivity].
        rewrite Hnone; [reflexivity|]. unfold named_aliases.
        apply in_flat_map. exists (c, d). split; [exact Hin|]. simpl.
        rewrite Ha. apply in_or_app. left. now left. }
      rewrite Hdirect in Hkv.
      destruct (d_fields d) as [fields|] eqn:Hfields; [|destruct Hkv].
      apply map_fields_values in Hkv.
      destruct Hkv as [[]|[a [Ha Hv]]].
      rewrite Hnone in Hv; [discriminate|]. unfold named_aliases.
      apply in_flat_map. exists (c, d). split; [exact Hin|]. simpl.
      rewrite Hfields. apply in_or_app. now right.
    - intros n us x []. }
  destruct (stage_loop_returns R rec result
              (map_fields_to_columns updated_record entries)
              updated_record entries Hrec [] upt Hst (log h fetch_event))
    as [h1 Hstage].
  exists h1. split; [exact Hstage|].
  rewrite (call_reaches_the_updates R w rec table id_name id_value
             updated_record schema main_table entries result h
             Hget Hsplit Hdb Hne upt h1 Hstage).
  unfold try_except, apply_updates, mbind at 1.
  rewrite execute_updates_sends, Hevents. cbn [for_each].
  unfold mret at 1, mbind at 1, commit. rewrite Hcommit.
  unfold mbind at 1, lift, read_fetch_query.
  unfold mbind, execute, mret, log.
  match goal with
  | |- context [db_execute w ?hh ?sql ?params] =>
      pose proof (Hfetch hh) as Hre; simpl in Hre;
      destruct (db_execute w hh sql params) as [|r]; [now destruct Hre|]
  end.
  now rewrite <- !app_assoc.
Qed.

Lemma amendment_without_known_alias_updates_nothing_witness :
  update_database two_links_schema branch_world 8 root_table "id"
                  (VStr "1") [("note", VStr "call back")] None []
  = (Ret true,
     [EExecute "SELECT * FROM bookings.transfer_services WHERE id = :id_value"
               [("id_value", VStr "1")];
      ECommit;
      EExecute "SELECT * FROM bookings.transfer_services WHERE id = :id_value"
               [("id_value", VStr "1")]]).
Proof.
  destruct (amendment_without_known_alias_updates_nothing
              two_links_schema branch_world
              (update_database_rec two_links_schema branch_world 7)
              root_table "id" (VStr "1") [("note", VStr "call back")]
              "bookings" "transfer_services"
              [("customer_id",
                link "bookings.customers.id" [("name", "customer_name")]);
               ("driver_id",
                link "bookings.drivers.id" [("phone", "driver_phone")])]
              branch_row
              [("bookings.customers", [UpdateInfo [] (VInt 7) "id"]);
               ("bookings.drivers", [UpdateInfo [] (VInt 9) "id"])]
              [] eq_refl eq_refl eq_refl eq_refl)
    as [h1 [Hstage Hrun]].
  - intros column d ref rs rt rc h Hin Href Hsplit Hnone Hmem.
    destruct Hin as [E|[E|[]]]; inversion E; subst; simpl in Href;
      inversion Href; subst; vm_compute in Hsplit; inversion Hsplit; subst;
      vm_compute in Hmem; discriminate.
  - vm_compute. reflexivity.
  - intros a Ha. vm_compute in Ha.
    destruct Ha as [<-|[<-|[]]]; reflexivity.
  - intros h'. vm_compute. discriminate.
  - intros h'. reflexivity.
  - vm_compute in Hstage. inversion Hstage; subst h1. exact Hrun.
Defined.

(** ** Amendment Oracle adapter and handler: outcomes *)

Lemma dict_merge_get (a b : pyrecord) (k : string) :
  NoDup (Dict.keys b) ->
  Dict.get k (Dict.merge a b)
  = match Dict.get k b with
    | Some v => Some v
    | None => Dict.get k a
    end.
Proof.
  unfold Dict.merge. revert a.
  induction b as [|[k0 v0] b IH]; intros a Hnd; [reflexivity|].
  simpl in Hnd. inversion Hnd as [|? ? Hnot Hnd']; subst.
  cbn [fold_left fst snd Dict.get]. rewrite IH by exact Hnd'.
  destruct (String.eqb_spec k k0) as [->|Hne].
  - assert (Hb : Dict.get k0 b = None).
    { destruct (Dict.get k0 b) eqn:E; [|reflexivity].
      exfalso. apply Hnot. apply dict_mem_keys. unfold Dict.mem.
      now rewrite E. }
    rewrite Hb. apply dict_get_set_same.
  - destruct (Dict.get k b); [reflexivity|].
    now apply dict_get_set_other.
Qed.

Section Handler.

Variable isoformat : temporal -> string.
Variable float_of_decimal : Decimal -> pyfloat.
Variable json_loads : string -> option value.
Variable generate_response : pyrecord -> string.
Variable RELATIONSHIPS : relationship_schema.
Variable w : World.
Variable recursion_limit : nat.

Local Abbreviation fetch :=
  (process_message isoformat float_of_decimal RELATIONSHIPS w).
Local Abbreviation amend := (map_corrections_using_gpt json_loads w).
Local Abbreviation propagate_root :=
  (update_database RELATIONSHIPS w recursion_limit).
Local Abbreviation handler :=
  (message isoformat float_of_decimal json_loads generate_response
           RELATIONSHIPS w recursion_limit).

Lemma adapter_outcome (record : pyrecord) (user_message : option string)
    (h : history) :
  exists outcome,
    amend record user_message h
    = (Ret outcome, log h (EPost record user_message))
    /\ ((exists corrections,
           outcome = (Some corrections, None)
           /\ status_code (oracle_post w h record user_message) = 200%Z
           /\ json_loads (content (oracle_post w h record user_message))
              = Some (VDict corrections))
        \/ (exists reason,
              outcome = (None, Some reason)
              /\ str_is_true (Some reason) = true)).
Proof.
  unfold map_corrections_using_gpt.
  destruct (Z.eqb_spec (status_code (oracle_post w h record user_message))
                       200) as [E|E].
  - destruct (json_loads _) as [[]|] eqn:Hjson;
      eexists; (split; [reflexivity|]);
      try (right; eexists; split; reflexivity).
    left. eexists. repeat split. exact E.
  - eexists. split; [reflexivity|]. right. eexists. split; reflexivity.
Qed.


(** What the handler does once the fetch and the adapter have returned. *)
Lemma handler_after_the_oracle (id_name id_value : string)
    (user_message : option string) (current : pyrecord)
    (corrections : option pyrecord) (error : option string)
    (h h1 h2 : history) :
  str_is_true (Some id_name) = true ->
  str_is_true (Some id_value) = true ->
  fetch root_table id_name (VStr id_value) h
  = (Ret (Some current, None), h1) ->
  record_is_true (Some current) = true ->
  amend current user_message h1 = (Ret (corrections, error), h2) ->
  handler (Request user_message (Some id_name) (Some id_value)) h
  = if record_is_true corrections then
      match propagate_root root_table id_name (VStr id_value)
                           (unwrap_record corrections) None h2 with
      | (Ret true, h3) =>
          (Ret (generate_response
                  (Dict.merge current (unwrap_record corrections)), 200%Z),
           log h3 EClose)
      | (Ret false, h3) =>
          (Ret ("Failed to update the record in the database.", 500%Z),
           log h3 EClose)
      | (Raise e, h3) => (Raise e, h3)
      end
    else if str_is_true error then
      (Ret ("Failed to process the corrections. Please try again.", 500%Z),
       log h2 EClose)
    else (Ret (generate_response current, 200%Z), log h2 EClose).
Proof.
  intros Hn Hv Hfetch Hrec Hamend.
  unfold message. cbn [req_id_name req_id_value req_message].
  rewrite Hn, Hv. cbn [negb orb unwrap_str].
  unfold mbind at 1. rewrite Hfetch. cbn [str_is_true].
  rewrite Hrec. cbn [negb unwrap_record].
  unfold mbind at 1. rewrite Hamend.
  destruct (record_is_true corrections).
  - unfold mbind at 1.
    destruct (update_database _ _ _ _ _ _ _ _ h2) as [[[|]|e] h3];
      reflexivity.
  - unfold mbind, close. now destruct (str_is_true error).
Qed.


(** X21: a response of the handler has status 200, 400, 404 or 500, and
    every response other than 400 is given after the session was closed:
    its last event is the close. *)
Theorem every_answer_closes_the_session :
  forall (req : request) (h h' : history) (body : string) (status : Z),
    handler req h = (Ret (body, status), h') ->
    (status = 400%Z /\ h' = h)
    \/ ((status = 200%Z \/ status = 404%Z \/ status = 500%Z)
        /\ exists events, h' = (h ++ events ++ [EClose])%list).
Proof.
  intros [user_message id_name id_value] h h' body status H.
  unfold message in H. cbn [req_id_name req_id_value req_message] in H.
  destruct (negb (str_is_true id_name) || negb (str_is_true id_value)).
  { inversion H; subst. now left. }
  right. unfold mbind at 1 in H.
  destruct (process_message_history isoformat float_of_decimal
              RELATIONSHIPS w root_table (unwrap_str id_name)
              (VStr (unwrap_str id_value)) h)
    as [[e [_ Hf]]|[q [r [_ Hf]]]]; rewrite Hf in H; [discriminate|].
  set (fetch_event := EExecute q [("id_value", VStr (unwrap_str id_value))])
    in *.
  destruct r as [[current error]|e]; [|discriminate].
  destruct (str_is_true error).
  { inversion H; subst. split; [auto|]. exists [fetch_event].
    unfold log. now rewrite <- app_assoc. }
  destruct (negb (record_is_true current)).
  { inversion H; subst. split; [auto|]. exists [fetch_event].
    unfold log. now rewrite <- app_assoc. }
  unfold mbind at 1 in H.
  destruct (adapter_outcome (unwrap_record current) user_message
              (log h fetch_event))
    as [[corrections error'] [Hamend _]].
  cbv zeta in H. rewrite Hamend in H.
  set (post_event := EPost (unwrap_record current) user_message) in *.
  destruct (record_is_true corrections).
  - unfold mbind at 1, update_database in H.
    destruct (update_database_rec_extends RELATIONSHIPS w recursion_limit
                root_table (unwrap_str id_name)
                (VStr (unwrap_str id_value)) (unwrap_record corrections)
                None (log (log h fetch_event) post_event))
      as [new [Hnew _]].
    destruct (update_database_rec _ _ _ _ _ _ _ _ _) as [[success|e] h3];
      [|discriminate].
    simpl in Hnew. subst h3.
    assert (Hclosed :
      log ((log (log h fetch_event) post_event) ++ new)%list EClose
      = (h ++ (fetch_event :: post_event :: new) ++ [EClose])%list).
    { unfold log. rewrite <- !app_assoc. reflexivity. }
    unfold mbind, close, mret in H.
    destruct success; inversion H; subst; (split; [auto|]);
      exists (fetch_event :: post_event :: new); exact Hclosed.
  - unfold mbind, close, mret in H.
    destruct (str_is_true error'); inversion H; subst; (split; [auto|]);
      exists [fetch_event; post_event]; unfold log;
      rewrite <- !app_assoc; reflexivity.
Qed.

(** X22: when the oracle answers with the empty object, the handler
    answers 200 with the confirmation of the record as fetched and
    writes nothing: its events are the fetch, the call of the oracle and
    the close. *)
Theorem empty_object_confirms_the_current_record :
  forall (id_name id_value : string) (user_message : option string)
         (current : pyrecord) (body : string) (h h1 : history),
    str_is_true (Some id_name) = true ->
    str_is_true (Some id_value) = true ->
    fetch root_table id_name (VStr id_value) h
    = (Ret (Some current, None), h1) ->
    record_is_true (Some current) = true ->
    oracle_post w h1 current user_message = OracleReply 200 body ->
    json_loads body = Some (VDict []) ->
    handler (Request user_message (Some id_name) (Some id_value)) h
    = (Ret (generate_response current, 200%Z),
       (h1 ++ [EPost current user_message; EClose])%list).
Proof.
  intros id_name id_value user_message current body h h1
         Hn Hv Hfetch Hrec Hpost Hjson.
  rewrite (handler_after_the_oracle id_name id_value user_message current
             (Some []) None h h1 (log h1 (EPost current user_message))
             Hn Hv Hfetch Hrec).
  - cbn. unfold log. now rewrite <- app_assoc.
  - unfold map_corrections_using_gpt. rewrite Hpost. simpl.
    now rewrite Hjson.
Qed.

(** X23: the handler answers 404 only for an empty record: the fetch
    then returned a record without any field and no error, and not the
    not-found outcome. *)
Theorem status_404_means_an_empty_record :
  forall (req : request) (h h' : history) (body : string),
    handler req h = (Ret (body, 404%Z), h') ->
    exists h1,
      fetch root_table (unwrap_str (req_id_name req))
            (VStr (unwrap_str (req_id_value req))) h
      = (Ret (Some [], None), h1)
      /\ body = "No record found."
      /\ h' = log h1 EClose.
Proof.
  intros [user_message id_name id_value] h h' body H.
  unfold message in H. cbn [req_id_name req_id_value req_message] in *.
  destruct (negb (str_is_true id_name) || negb (str_is_true id_value));
    [discriminate|].
  unfold mbind at 1 in H.
  destruct (construct_query RELATIONSHIPS root_table (unwrap_str id_name)
              (VStr (unwrap_str id_value))) as [q|e] eqn:Hq.
  2: { unfold process_message, mbind, lift in H. rewrite Hq in H.
       discriminate. }
  destruct (process_message_outcome isoformat float_of_decimal
              RELATIONSHIPS w root_table (unwrap_str id_name)
              (VStr (unwrap_str id_value)) q h Hq)
    as [outcome [Hf Hshape]].
  rewrite Hf in H. exists (log h (EExecute q
                                   [("id_value", VStr (unwrap_str id_value))])).
  destruct Hshape as [[record ->] | [ -> | -> ]];
    [|discriminate|discriminate].
  cbn [str_is_true] in H.
  destruct record as [|kv record].
  - cbn in H. inversion H; subst. rewrite Hf. auto.
  - cbn [record_is_true negb unwrap_record] in H. exfalso.
    unfold mbind at 1 in H.
    destruct (adapter_outcome (kv :: record) user_message
                (log h (EExecute q
                          [("id_value", VStr (unwrap_str id_value))])))
      as [[corrections error'] [Hamend _]].
    cbv zeta in H. rewrite Hamend in H.
    destruct (record_is_true corrections).
    + unfold mbind at 1 in H.
      destruct (update_database _ _ _ _ _ _ _ _ _) as [[[|]|e] h3];
        discriminate.
    + unfold mbind, close in H.
      destruct (str_is_true error'); discriminate.
Qed.

(** X24: after a propagation that returned [True], the handler answers
    200 with the confirmation of the fetched record overlaid with the
    corrections: a corrected field shows its corrected value, any other
    field its fetched value. *)
Theorem success_confirms_the_corrected_record :
  forall (id_name id_value : string) (user_message : option string)
         (current corrections : pyrecord) (error : option string)
         (h h1 h2 h3 : history),
    str_is_true (Some id_name) = true ->
    str_is_true (Some id_value) = true ->
    fetch root_table id_name (VStr id_value) h
    = (Ret (Some current, None), h1) ->
    record_is_true (Some current) = true ->
    amend current user_message h1 = (Ret (Some corrections, error), h2) ->
    record_is_true (Some corrections) = true ->
    NoDup (Dict.keys corrections) ->
    propagate_root root_table id_name (VStr id_value) corrections None h2
    = (Ret true, h3) ->
    handler (Request user_message (Some id_name) (Some id_value)) h
    = (Ret (generate_response (Dict.merge current corrections), 200%Z),
       log h3 EClose)
    /\ forall k,
         Dict.get k (Dict.merge current corrections)
         = match Dict.get k corrections with
           | Some v => Some v
           | None => Dict.get k current
           end.
Proof.
  intros id_name id_value user_message current corrections error
         h h1 h2 h3 Hn Hv Hfetch Hrec Hamend Hcorr Hnd Hprop.
  split; [|intros k; now apply dict_merge_get].
  rewrite (handler_after_the_oracle id_name id_value user_message current
             (Some corrections) error h h1 h2 Hn Hv Hfetch Hrec Hamend).
  rewrite Hcorr. cbn [unwrap_record]. now rewrite Hprop.
Qed.

(** X25: when the propagation raises, the handler raises the same
    exception and the session is left open: no close follows the events
    of the propagation. *)
Theorem raising_propagation_leaves_the_session_open :
  forall (id_name id_value : string) (user_message : option string)
         (current corrections : pyrecord) (error : option string)
         (e : exn) (h h1 h2 h3 : history),
    str_is_true (Some id_name) = true ->
    str_is_true (Some id_value) = true ->
    fetch root_table id_name (VStr id_value) h
    = (Ret (Some current, None), h1) ->
    record_is_true (Some current) = true ->
    amend current user_message h1 = (Ret (Some corrections, error), h2) ->
    record_is_true (Some corrections) = true ->
    propagate_root root_table id_name (VStr id_value) corrections None h2
    = (Raise e, h3) ->
    handler (Request user_message (Some id_name) (Some id_value)) h
    = (Raise e, h3).
Proof.
  intros id_name id_value user_message current corrections error e
         h h1 h2 h3 Hn Hv Hfetch Hrec Hamend Hcorr Hprop.
  rewrite (handler_after_the_oracle id_name id_value user_message current
             (Some corrections) error h h1 h2 Hn Hv Hfetch Hrec Hamend).
  rewrite Hcorr. cbn [unwrap_record]. now rewrite Hprop.
Qed.

End Handler.

Lemma every_answer_closes_the_session_witness :
  (500%Z = 400%Z
   /\ [EExecute
         ("SELECT bookings.transfer_services.status AS " ++ quoted "status"
            ++ ", customers_alias_1.name AS " ++ quoted "customer_name"
            ++ " FROM bookings.transfer_services"
            ++ " LEFT JOIN bookings.customers AS customers_alias_1"
            ++ " ON bookings.transfer_services.customer_id"
            ++ " = customers_alias_1.id"
            ++ " WHERE bookings.transfer_services.id = :id_value")
         [("id_value", VStr "1")];
       EClose] = [])
  \/ ((500%Z = 200%Z \/ 500%Z = 404%Z \/ 500%Z = 500%Z)
      /\ exists events,
           [EExecute
              ("SELECT bookings.transfer_services.status AS "
                 ++ quoted "status"
                 ++ ", customers_alias_1.name AS " ++ quoted "customer_name"
                 ++ " FROM bookings.transfer_services"
                 ++ " LEFT JOIN bookings.customers AS customers_alias_1"
                 ++ " ON bookings.transfer_services.customer_id"
                 ++ " = customers_alias_1.id"
                 ++ " WHERE bookings.transfer_services.id = :id_value")
              [("id_value", VStr "1")];
            EClose] = ([] ++ events ++ [EClose])%list).
Proof.
  exact (every_answer_closes_the_session
           py_isoformat float_of_integral_decimal demo_json_loads
           demo_generate_response scenario_schema empty_world 8
           scenario_request [] _ "No record found." 500%Z eq_refl).
Defined.

Lemma empty_object_confirms_the_current_record_witness :
  message py_isoformat float_of_integral_decimal demo_json_loads
          demo_generate_response scenario_schema
          (scenario_world (OracleReply 200 "{}")) 8 scenario_request []
  = (Ret (demo_generate_response
            [("status", VStr "pending"); ("customer_name", VStr "Ana")],
          200%Z),
     [EExecute
        ("SELECT bookings.transfer_services.status AS " ++ quoted "status"
           ++ ", customers_alias_1.name AS " ++ quoted "customer_name"
           ++ " FROM bookings.transfer_services"
           ++ " LEFT JOIN bookings.customers AS customers_alias_1"
           ++ " ON bookings.transfer_services.customer_id"
           ++ " = customers_alias_1.id"
           ++ " WHERE bookings.transfer_services.id = :id_value")
        [("id_value", VStr "1")];
      EPost [("status", VStr "pending"); ("customer_name", VStr "Ana")]
            (Some "the customer is Ana Lopez");
      EClose]).
Proof.
  exact (empty_object_confirms_the_current_record
           py_isoformat float_of_integral_decimal demo_json_loads
           demo_generate_response scenario_schema
           (scenario_world (OracleReply 200 "{}")) 8
           "id" "1" (Some "the customer is Ana Lopez")
           [("status", VStr "pending"); ("customer_name", VStr "Ana")]
           "{}" [] _ eq_refl eq_refl eq_refl eq_refl eq_refl eq_refl).
Defined.

Lemma status_404_means_an_empty_record_witness :
  exists h1,
    process_message py_isoformat float_of_integral_decimal bare_schema
      (scenario_world (OracleReply 200 "{}")) root_table "id" (VStr "1") []
    = (Ret (Some [], None), h1)
    /\ "No record found." = "No record found."
    /\ [EExecute ("SELECT  FROM bookings.transfer_services"
                    ++ " WHERE bookings.transfer_services.id = :id_value")
                 [("id_value", VStr "1")];
        EClose] = log h1 EClose.
Proof.
  exact (status_404_means_an_empty_record
           py_isoformat float_of_integral_decimal demo_json_loads
           demo_generate_response bare_schema
           (scenario_world (OracleReply 200 "{}")) 8
           scenario_request [] _ "No record found." eq_refl).
Defined.

Lemma success_confirms_the_corrected_record_witness :
  message py_isoformat float_of_integral_decimal demo_json_loads
          demo_generate_response links_only_schema
          (scenario_world (OracleReply 200 amendment_text)) 8
          scenario_request []
  = (Ret (demo_generate_response [("customer_name", VStr "Ana Lopez")],
          200%Z),
     [EExecute
        ("SELECT customers_alias_1.name AS " ++ quoted "customer_name"
           ++ " FROM bookings.transfer_services"
           ++ " LEFT JOIN bookings.customers AS customers_alias_1"
           ++ " ON bookings.transfer_services.customer_id"
           ++ " = customers_alias_1.id"
           ++ " WHERE bookings.transfer_services.id = :id_value")
        [("id_value", VStr "1")];
      EPost [("customer_name", VStr "Ana")]
            (Some "the customer is Ana Lopez");
      EExecute "SELECT * FROM bookings.transfer_services WHERE id = :id_value"
               [("id_value", VStr "1")];
      EExecute (update_text "bookings.customers" ["name"] "id")
               [("name", VStr "Ana Lopez"); ("related_id", VInt 7)];
      ECommit;
      EExecute "SELECT * FROM bookings.transfer_services WHERE id = :id_value"
               [("id_value", VStr "1")];
      EClose]).
Proof.
  refine (proj1
    (success_confirms_the_corrected_record
       py_isoformat float_of_integral_decimal demo_json_loads
       demo_generate_response links_only_schema
       (scenario_world (OracleReply 200 amendment_text)) 8
       "id" "1" (Some "the customer is Ana Lopez")
       [("customer_name", VStr "Ana")]
       [("customer_name", VStr "Ana Lopez")] None
       [] _ _ _ eq_refl eq_refl eq_refl eq_refl eq_refl eq_refl _ eq_refl)).
  repeat constructor. intros [].
Defined.

Lemma raising_propagation_leaves_the_session_open_witness :
  message py_isoformat float_of_integral_decimal demo_json_loads
          demo_generate_response scenario_schema
          (scenario_world (OracleReply 200 amendment_text)) 8
          scenario_request []
  = (Raise (KeyError "ref"),
     [EExecute
        ("SELECT bookings.transfer_services.status AS " ++ quoted "status"
           ++ ", customers_alias_1.name AS " ++ quoted "customer_name"
           ++ " FROM bookings.transfer_services"
           ++ " LEFT JOIN bookings.customers AS customers_alias_1"
           ++ " ON bookings.transfer_services.customer_id"
           ++ " = customers_alias_1.id"
           ++ " WHERE bookings.transfer_services.id = :id_value")
        [("id_value", VStr "1")];
      EPost [("status", VStr "pending"); ("customer_name", VStr "Ana")]
            (Some "the customer is Ana Lopez");
      EExecute "SELECT * FROM bookings.transfer_services WHERE id = :id_value"
               [("id_value", VStr "1")]]).
Proof.
  exact (raising_propagation_leaves_the_session_open
           py_isoformat float_of_integral_decimal demo_json_loads
           demo_generate_response scenario_schema
           (scenario_world (OracleReply 200 amendment_text)) 8
           "id" "1" (Some "the customer is Ana Lopez")
           [("status", VStr "pending"); ("customer_name", VStr "Ana")]
           [("customer_name", VStr "Ana Lopez")] None (KeyError "ref")
           [] _ _ _ eq_refl eq_refl eq_refl eq_refl eq_refl eq_refl eq_refl).
Defined.

(** ** Serialized values *)

Lemma serialize_is_plain (isoformat : temporal -> string)
    (float_of_decimal : Decimal -> pyfloat) (v : value) :
  is_temporal_or_decimal v = false ->
  is_temporal_or_decimal (serialize isoformat float_of_decimal v) = false.
Proof. now destruct v. Qed.

Lemma written_values (isoformat : temporal -> string)
    (float_of_decimal : Decimal -> pyfloat) (result : row)
    (l : list string) :
  forall acc a v,
    In (a, v) (fold_left (write_alias isoformat float_of_decimal result) l acc) ->
    In (a, v) acc
    \/ v = serialize isoformat float_of_decimal (row_get a result).
Proof.
  induction l as [|b l IH]; intros acc a v Hin; [now left|].
  simpl in Hin. apply IH in Hin. destruct Hin as [Hin|Hin]; [|now right].
  unfold write_alias in Hin. apply dict_set_In in Hin.
  destruct Hin as [[= -> ->]|Hin]; [now right | now left].
Qed.

(** X26: no value of a materialized Record is itself temporal or a
    [Decimal]: every value is the serialized value of the row under its
    alias, and serializing it again changes nothing. *)
Theorem materialized_values_are_serialized :
  forall (isoformat : temporal -> string)
         (float_of_decimal : Decimal -> pyfloat)
         (result : row) (entries : table_schema) (record : pyrecord),
    materialize isoformat float_of_decimal result entries [] = Ret record ->
    forall a v,
      In (a, v) record ->
      v = serialize isoformat float_of_decimal (row_get a result)
      /\ is_temporal_or_decimal v = false
      /\ serialize isoformat float_of_decimal v = v.
Proof.
  intros isoformat float_of_decimal result entries record Hmat a v Hin.
  pose proof (materialize_Ret _ _ _ _ _ _ Hmat) as Hfields.
  rewrite materialize_fold in Hmat by exact Hfields.
  inversion Hmat; subst record. apply written_values in Hin.
  destruct Hin as [[] | ->].
  assert (Hplain : is_temporal_or_decimal
                     (serialize isoformat float_of_decimal
                        (row_get a result)) = false)
    by (now destruct (row_get a result)).
  split; [reflexivity|]. split; [exact Hplain|].
  now apply serialize_other.
Qed.

Lemma materialized_values_are_serialized_witness :
  VStr "2024-01-02"
  = serialize py_isoformat float_of_integral_decimal
              (row_get "pickup_date" dated_row)
  /\ is_temporal_or_decimal (VStr "2024-01-02") = false
  /\ serialize py_isoformat float_of_integral_decimal (VStr "2024-01-02")
     = VStr "2024-01-02".
Proof.
  apply (materialized_values_are_serialized
           py_isoformat float_of_integral_decimal dated_row dated_schema
           dated_record eq_refl "pickup_date" (VStr "2024-01-02")).
  simpl. now left.
Defined.

(** ** Update Propagator: what a call sends *)

Lemma send_all_extends (w : World) (P : event -> Prop) (l : history) :
  Forall P l ->
  forall h, extends_with P h (snd (for_each (send w) l h)).
Proof.
  intros H. apply for_each_extends. intros x Hx h.
  rewrite Forall_forall in H. specialize (H x Hx).
  destruct x; simpl; try (now apply extends_log).
  apply mbind_extends; [now apply execute_extends|].
  intros ? ? _ _. apply extends_refl.
Qed.

Lemma stage_branch_keys (mapped : Dict.t (Dict.t value))
    (column name rc : string) (fk : value) (upt : updates_table) :
  is_None fk = false -> staged_with_keys upt ->
  staged_with_keys (stage_branch mapped column name rc fk upt).
Proof.
  intros Hfk Hupt n us x Hin Hx. unfold stage_branch in Hin.
  set (upt1 := if Dict.mem name upt then upt else Dict.set name [] upt) in *.
  assert (H1 : staged_with_keys upt1).
  { subst upt1. destruct (Dict.mem name upt); [exact Hupt|].
    intros n' us' x' Hin' Hx'. apply dict_set_In in Hin'.
    destruct Hin' as [[= -> ->]|Hin']; [destruct Hx'|].
    exact (Hupt n' us' x' Hin' Hx'). }
  destruct (Dict.get column mapped) as [cols|];
    [|exact (H1 n us x Hin Hx)].
  unfold append_update in Hin.
  destruct (Dict.get name upt1) as [us0|] eqn:Hus0;
    [|exact (H1 n us x Hin Hx)].
  apply dict_set_In in Hin.
  destruct Hin as [[= -> ->]|Hin]; [|exact (H1 n us x Hin Hx)].
  apply in_app_or in Hx. destruct Hx as [Hx|[<-|[]]].
  - exact (H1 name us0 x (dict_get_In _ _ _ Hus0) Hx).
  - exact Hfk.
Qed.

Lemma update_events_keyed (upt : updates_table) :
  staged_with_keys upt -> Forall keyed_event (update_events upt).
Proof.
  intros H. apply Forall_forall. intros x Hx.
  unfold update_events in Hx. apply in_flat_map in Hx.
  destruct Hx as [[name us] [Hin Hx]]. apply in_flat_map in Hx.
  destruct Hx as [u [Hu Hx]]. unfold update_event in Hx.
  destruct (Dict.is_empty (columns u)); [destruct Hx|].
  destruct Hx as [<-|[]]. simpl. right.
  exists name, (Dict.keys (columns u)), (related_column u), (related_id u).
  repeat split; [apply dict_get_set_same | exact (H name us u Hin Hu)].
Qed.

Section KeyedPropagation.

Variable R : relationship_schema.
Variable w : World.

Lemma stage_loop_keyed (rec : propagate) (result : row)
    (mapped : Dict.t (Dict.t value)) (u : pyrecord)
    (entries : table_schema) :
  (forall t n v u' r h,
     extends_with keyed_event h (snd (rec t n v u' (Some r) h))) ->
  forall upt h,
    staged_with_keys upt ->
    extends_with keyed_event h
      (snd (stage_loop R rec result mapped u entries upt h))
    /\ forall upt',
         fst (stage_loop R rec result mapped u entries upt h) = Ret upt' ->
         staged_with_keys upt'.
Proof.
  intros Hrec.
  induction entries as [|[column d] rest IH]; intros upt h Hupt.
  - simpl. unfold mret. simpl.
    split; [apply extends_refl | now intros upt' [= <-]].
  - rewrite stage_loop_cons.
    destruct (d_ref d) as [ref|];
      [|simpl; split; [apply extends_refl | discriminate]].
    destruct (split3 ref) as [[[rs rt] rc]|e];
      [|simpl; split; [apply extends_refl | discriminate]].
    destruct (is_None (row_get column result)) eqn:Hfk; [now apply IH|].
    assert (Hupt2 : staged_with_keys
              (stage_branch mapped column (rs ++ "." ++ rt) rc
                            (row_get column result) upt))
      by (now apply stage_branch_keys).
    cbv zeta. destruct (Dict.mem (rs ++ "." ++ rt) R); [|now apply IH].
    pose proof (Hrec (rs ++ "." ++ rt) (rt ++ "." ++ rc)
                  (row_get column result) u result h) as Hcall.
    destruct (rec _ _ _ _ _ h) as [[b|e] h1]; simpl in Hcall.
    + destruct (IH _ h1 Hupt2) as [He Hs].
      split; [eapply extends_trans; eassumption | exact Hs].
    + simpl. split; [exact Hcall | discriminate].
Qed.

Lemma update_database_body_keyed (rec : propagate) :
  (forall t n v u r h,
     extends_with keyed_event h (snd (rec t n v u (Some r) h))) ->
  forall t n v u pr h,
    extends_with keyed_event h
      (snd (update_database_body R w rec t n v u pr h)).
Proof.
  intros Hrec t n v u pr h. unfold update_database_body.
  apply mbind_extends; [apply extends_refl|].
  intros entries h0 _ _.
  apply try_except_extends.
  2: { intros h1. apply mbind_extends.
       - apply extends_log. exact I.
       - intros _ h2 _ _. apply extends_refl. }
  unfold update_database_try.
  apply mbind_extends; [apply extends_refl|].
  intros [schema main_table] h1 _ _.
  apply mbind_extends.
  { unfold resolve_row. destruct pr as [r|]; [apply extends_refl|].
    apply mbind_extends.
    - apply execute_extends. left.
      exists schema, main_table, (last_component n), v.
      split; reflexivity.
    - intros ? ? _ _. apply extends_refl. }
  intros [fq result] h2 Hres _.
  assert (Hfq : forall q, fq = Some q ->
            keyed_event (EExecute q [("id_value", v)])).
  { intros q ->. unfold resolve_row in Hres. destruct pr as [r|].
    - discriminate.
    - unfold mbind, mret in Hres.
      destruct (execute w _ _ h1) as [[x|e] hx]; simpl in Hres;
        [|discriminate]. inversion Hres; subst. left.
      exists schema, main_table, (last_component n), v.
      split; reflexivity. }
  unfold propagate_row.
  destruct (row_is_true result); [|apply extends_refl].
  destruct result as [result|]; [|apply extends_refl].
  apply mbind_extends; [apply extends_refl|].
  intros entries' h3 _ _.
  destruct (stage_loop_keyed rec result (map_fields_to_columns u entries)
              u entries' Hrec [] h3) as [Hext Hst].
  { intros name us x []. }
  apply mbind_extends; [exact Hext|].
  intros upt h4 Hupt _. unfold apply_updates.
  apply mbind_extends.
  { pose proof (send_all_extends w keyed_event (update_events upt)
                  (update_events_keyed upt (Hst upt Hupt)) h4) as Hsend.
    now rewrite <- execute_updates_sends in Hsend. }
  intros _ h5 _ _. apply mbind_extends.
  { unfold commit. destruct (db_commit w h5); simpl; now apply extends_log. }
  intros _ h6 _ _. apply mbind_extends.
  { unfold lift. simpl. apply extends_refl. }
  intros q h7 Hq _. apply mbind_extends.
  { apply execute_extends. apply Hfq.
    unfold lift, read_fetch_query in Hq. simpl in Hq.
    destruct fq; [now inversion Hq | discriminate]. }
  intros _ h8 _ _. apply extends_refl.
Qed.

Lemma update_database_rec_keyed (depth : nat) :
  forall t n v u pr h,
    extends_with keyed_event h
      (snd (update_database_rec R w depth t n v u pr h)).
Proof.
  induction depth as [|depth IH]; intros t n v u pr h.
  - simpl. apply extends_refl.
  - simpl. apply update_database_body_keyed.
    intros t' n' v' u' r h'. exact (IH t' n' v' u' (Some r) h').
Qed.

End KeyedPropagation.

(** X27: whatever the schema, the database and the outcome, a call of
    [update_database] only adds events to the session, and each is a
    fetch bound to [id_value] alone, an UPDATE whose [related_id] is
    bound to a foreign key other than [None], a commit or a rollback:
    the propagation never sends an UPDATE keyed by a null foreign key,
    never closes the session and never calls the oracle. *)
Theorem propagation_sends_only_keyed_statements :
  forall (R : relationship_schema) (w : World) (recursion_limit : nat)
         (table id_name : string) (id_value : value)
         (updated_record : pyrecord) (parent_result : option row)
         (h : history),
    extends_with keyed_event h
      (snd (update_database R w recursion_limit table id_name id_value
              updated_record parent_result h)).
Proof.
  intros R w recursion_limit table id_name id_value updated_record
         parent_result h.
  apply update_database_rec_keyed.
Qed.
